(** * Verification of the microservice benchmark orchestration
      (sdk/mx.sdk/mx_sdk_benchmark.py)

    A shallow embedding of the parts of [mx_sdk_benchmark.py] that the
    specification speaks about: unit conversion, the wrk configuration
    loader, the aggregation of wrk2 results, the port probe, the stage
    controller and the latency calibration.

    Conventions of the embedding.
    - Python [float] is IEEE-754 binary64: it is Rocq's primitive [float],
      with the same operations (round to nearest, ties to even).
    - Python [int] is unbounded: it is [Z].
    - [mx.abort(...)] ends the run: it is the outcome [Abort], with the
      reason; an uncaught Python exception is the outcome [Raise].
    - A [dict] is a [gmap]; dictionaries that are shared and updated in
      place live in a store indexed by references. *)

From Stdlib Require Import ZArith QArith Qabs Qpower Floats Lia Lqa.
From stdpp Require Import gmap strings list.

Set Warnings "-inexact-float,-register-all,-clear-no-such-hyp".
Set Default Proof Using "Type".

#[local] Open Scope Z_scope.

(** ** Outcomes of Python code *)

(** The exceptions the modelled code can let escape. *)
Inductive exn : Type :=
  | TypeError
  | ValueError
  | IndexError
  | KeyError
  | OverflowError
  | ZeroDivisionError
  | AttributeError.

(** The reasons for which the modelled code calls [mx.abort]; each
    constructor stands for one message of the source. *)
Inductive failure : Type :=
  | UnexpectedUnit (unit : string)
      (* "Unexpected unit: " + fromUnit *)
  | MandatoryEntryMissing (key : string)
      (* "Mandatory entry {key} not specified in Wrk configuration." *)
  | ElementCountMismatch
      (* "The configuration elements 'script', ... must have the same
          number of elements." *)
  | EmptyInput (count : nat)
      (* "Expected at least one wrk2 result: " + str(count) *)
  | KeySetMismatch (expected found : gset string)
      (* "There is a mismatch between the keys of multiple wrk2 runs: ..." *)
  | NotOneThroughputResult (matches : list string)
      (* "Expected exactly one throughput result in the output: ..." *)
  | NoLatencyResults
      (* "No latency results found in output" *)
  | NoLuaScript
      (* "Expected at least one lua script in the latency configuration." *)
  | UnexpectedReturnCode (retcode : Z)
      (* "The server application unexpectedly ended with return code ..." *)
  | UnexpectedStage (stage : string)
      (* "Unexpected stage: " + stage *)
  | ServerNotFound
      (* "Failed to find server application in ..." *)
  | ServerNotTerminated
      (* "Failed to terminate server application in ..." *)
  | MissingPsutil
      (* "Failed to import ... dependency module: psutil" *)
  | UnsupportedOS (os : string)
      (* "... not supported in ..." *)
  | NotOneLuaScript
      (* "Expected exactly one lua script in the throughput configuration." *)
  | MoreThanOneBenchmark
      (* "A single benchmark should be specified for ..." *)
  | InvalidSuiteName (name : string)
      (* "Invalid benchmark suite name: ..." *)
  | StagesSpecifiedTwice
      (* "Native Image benchmark stages should only be specified once." *)
  | ServiceNotReachable.
      (* "Failed to measure time to first response. Service not reachable
          at ..." *)

Inductive outcome (A : Type) : Type :=
  | Ok (a : A)
  | Abort (why : failure)
  | Raise (e : exn).
Arguments Ok {A} a.
Arguments Abort {A} why.
Arguments Raise {A} e.

#[export] Instance outcome_ret : MRet outcome := @Ok.
#[export] Instance outcome_bind : MBind outcome := λ A B f m,
  match m with
  | Ok a => f a
  | Abort w => Abort w
  | Raise e => Raise e
  end.

Definition is_ok {A} (m : outcome A) : bool :=
  match m with Ok _ => true | _ => false end.

Definition is_abort {A} (m : outcome A) : bool :=
  match m with Abort _ => true | _ => false end.

(** Code that works on a state of type [W]. What it has done to the
    state when it fails stays done, as in Python: the state comes back
    beside the outcome. *)
Definition action (W A : Type) : Type := W → outcome A * W.

#[export] Instance action_ret {W} : MRet (action W) := λ A a w, (Ok a, w).
#[export] Instance action_bind {W} : MBind (action W) := λ A B f m w,
  match m w with
  | (Ok a, w') => f a w'
  | (Abort why, w') => (Abort why, w')
  | (Raise e, w') => (Raise e, w')
  end.

(** [mx.abort(...)] *)
Definition abort {W A} (why : failure) : action W A := λ w, (Abort why, w).

(** ** Python numbers *)

Module Py.

(** [float(z)] for an [int]: the nearest binary64 value, ties to even;
    CPython raises [OverflowError] when the integer is too large. *)
Definition Z2F (z : Z) : float :=
  SF2Prim (binary_normalize prec emax z 0 false).

Definition float_of_int (z : Z) : outcome float :=
  let f := Z2F z in
  if is_infinity f then Raise OverflowError else Ok f.

(** [int(x)] for a [float]: truncation towards zero. *)
Definition int (x : float) : outcome Z :=
  match Prim2SF x with
  | S754_zero _ => Ok 0
  | S754_finite s m e => Ok (cond_Zopp s (Z.shiftl (Z.pos m) e))
  | S754_infinity _ => Raise OverflowError
  | S754_nan => Raise ValueError
  end.

(** [round(x)] for a [float]: the nearest integer, ties to even. The
    source never calls it; it is the rounding the specification names. *)
Definition round_half_even (m : positive) (e : Z) : Z :=
  if 0 <=? e then Z.shiftl (Z.pos m) e
  else
    let q := Z.shiftl (Z.pos m) e in
    let r := Z.pos m - Z.shiftl q (- e) in
    let half := Z.shiftl 1 (- e - 1) in
    if (half <? r) || ((r =? half) && Z.odd q) then q + 1 else q.

Definition round (x : float) : outcome Z :=
  match Prim2SF x with
  | S754_zero _ => Ok 0
  | S754_finite s m e => Ok (cond_Zopp s (round_half_even m e))
  | S754_infinity _ => Raise OverflowError
  | S754_nan => Raise ValueError
  end.

(** [x / y] on floats: Python raises on a zero divisor. *)
Definition div (x y : float) : outcome float :=
  if (y =? 0)%float then Raise ZeroDivisionError else Ok (x / y)%float.

(** Truth value of a float: [x != 0.0]. *)
Definition float_truthy (x : float) : bool := negb (x =? 0)%float.

(** A number as the tables and datapoints hold them. *)
Inductive num : Type :=
  | Int (z : Z)
  | Float (f : float).

(** [float(n)]. *)
Definition to_float (n : num) : outcome float :=
  match n with
  | Int z => float_of_int z
  | Float f => Ok f
  end.

End Py.

(** ** Unit conversion *)

Definition convertValue (table : gmap string Py.num) (value : float)
    (fromUnit toUnit : string) : outcome float :=
  match table !! fromUnit with
  | None => Abort (UnexpectedUnit fromUnit)
  | Some a =>
      fromFactor ← Py.to_float a;
      match table !! toUnit with
      | None => Abort (UnexpectedUnit fromUnit)
      | Some b =>
          toFactor ← Py.to_float b;
          Py.div (value * fromFactor)%float toFactor
      end
  end.

Definition timeUnitTable : gmap string Py.num :=
  list_to_map
    [ ("ns", Py.Int 1);
      ("us", Py.Int 1000);
      ("ms", Py.Int (1000 * 1000));
      ("s", Py.Int (1000 * 1000 * 1000));
      ("min", Py.Int (60 * 1000 * 1000 * 1000));
      ("h", Py.Int (60 * 60 * 1000 * 1000 * 1000)) ].

Definition tputUnitTable : gmap string Py.num :=
  list_to_map
    [ ("op/ns", Py.Float 1.0);
      ("op/us", Py.Float (1.0 / Py.Z2F 1000));
      ("op/ms", Py.Float (1.0 / Py.Z2F (1000 * 1000)));
      ("op/s", Py.Float (1.0 / Py.Z2F (1000 * 1000 * 1000)));
      ("op/min", Py.Float (1.0 / Py.Z2F (60 * 1000 * 1000 * 1000)));
      ("op/h", Py.Float (1.0 / Py.Z2F (60 * 60 * 1000 * 1000 * 1000))) ].

Definition memUnitTable : gmap string Py.num :=
  list_to_map
    [ ("B", Py.Int 1);
      ("kB", Py.Int 1000);
      ("MB", Py.Int (1000 * 1000));
      ("GB", Py.Int (1000 * 1000 * 1000));
      ("KiB", Py.Int 1024);
      ("MiB", Py.Int (1024 * 1024));
      ("GiB", Py.Int (1024 * 1024 * 1024)) ].

(** ** Loops *)

(** [for x in l: s = body(x, s)], where the body may abort or raise. *)
Fixpoint for_each {A S : Type} (body : A → S → outcome S) (l : list A)
    (s : S) : outcome S :=
  match l with
  | [] => Ok s
  | x :: l' => s' ← body x s; for_each body l' s'
  end.

(** ** Strings *)

Module Str.

(** [s + c] for a character [c]. *)
Definition snoc (s : string) (c : Ascii.ascii) : string :=
  String.append s (String c EmptyString).

(** [s[n:]] *)
Definition drop (n : nat) (s : string) : string :=
  String.substring n (String.length s - n) s.

(** The parts of [s] between the occurrences of [sep], which are found
    from left to right and do not overlap: [skip] characters of an
    occurrence are still to be passed over, and [part] is the part read
    so far. *)
Fixpoint split_from (sep s : string) (skip : nat) (part : string)
    : list string :=
  match s with
  | EmptyString => [part]
  | String c s' =>
      match skip with
      | S k => split_from sep s' k part
      | O =>
          if String.prefix sep s
          then part :: split_from sep s' (String.length sep - 1) EmptyString
          else split_from sep s' 0 (snoc part c)
      end
  end.

(** [s.split(sep)]: an empty separator is refused. *)
Definition split (sep s : string) : outcome (list string) :=
  if String.eqb sep "" then Raise ValueError
  else Ok (split_from sep s 0 EmptyString).

(** [l[i]] on a list. *)
Definition item {A} (i : nat) (l : list A) : outcome A :=
  match l !! i with Some x => Ok x | None => Raise IndexError end.

End Str.

(** ** Options on the command line *)

(** The body of the loop of [parse_prefixed_args]. *)
Definition parse_prefixed (prefix arg : string) (ret : list string)
    : outcome (list string) :=
  if String.prefix prefix arg then
    words ← Str.split " " arg;
    word ← Str.item 0 words;
    parts ← Str.split prefix word;
    parsed ← Str.item 1 parts;
    if bool_decide (parsed ∈ ret) then Ok ret else Ok (ret ++ [parsed])
  else Ok ret.

Definition parse_prefixed_args (prefix : string) (args : list string)
    : outcome (list string) :=
  for_each (parse_prefixed prefix) args [].

(** [parse_prefixed_arg(prefix, args, errorMsg)]; [None] is Python's
    [None]. *)
Definition parse_prefixed_arg (prefix : string) (args : list string)
    (errorMsg : failure) : outcome (option string) :=
  ret ← parse_prefixed_args prefix args;
  if (1 <? length ret)%nat then Abort errorMsg
  else if (length ret <? 1)%nat then Ok None
  else v ← Str.item 0 ret; Ok (Some v).

(** The body of the generator [_strip_arg_with_number_gen]; [is_int s]
    tells whether [int(s)] returns. *)
Fixpoint _strip_arg_with_number_gen (is_int : string → bool)
    (_strip_arg : string) (_args : list string) (skip_next : bool)
    : list string :=
  match _args with
  | [] => []
  | arg :: rest =>
      if skip_next then
        _strip_arg_with_number_gen is_int _strip_arg rest false
      else if String.prefix _strip_arg arg then
        if String.eqb arg _strip_arg then
          _strip_arg_with_number_gen is_int _strip_arg rest true
        else if (String.length _strip_arg =? 2)%nat
                && String.prefix "-" _strip_arg then
          let remainder_arg := Str.drop (String.length _strip_arg) arg in
          if is_int remainder_arg then
            _strip_arg_with_number_gen is_int _strip_arg rest false
          else arg :: _strip_arg_with_number_gen is_int _strip_arg rest false
        else arg :: _strip_arg_with_number_gen is_int _strip_arg rest false
      else arg :: _strip_arg_with_number_gen is_int _strip_arg rest false
  end.

(** [strip_args_with_number(strip_args, args)]: [strip_args] is one
    option or a list of options. *)
Definition strip_args_with_number (is_int : string → bool)
    (strip_args : string + list string) (args : list string) : list string :=
  let strip_args :=
    match strip_args with inl one => [one] | inr several => several end in
  foldl (λ result strip_arg,
           _strip_arg_with_number_gen is_int strip_arg result false)
    args strip_args.

(** ** NativeImageBenchmarkMixin: the options of a benchmark *)

Module Mixin.

Definition extra_image_build_argument (args : list string) :=
  parse_prefixed_args
    "-Dnative-image.benchmark.extra-image-build-argument=" args.

Definition extra_jvm_arg (args : list string) :=
  parse_prefixed_args "-Dnative-image.benchmark.extra-jvm-arg=" args.

Definition extra_run_arg (args image_run_args : list string)
    : outcome (list string) :=
  parsed ← parse_prefixed_args "-Dnative-image.benchmark.extra-run-arg=" args;
  Ok (image_run_args ++ parsed).

Definition extra_agent_run_arg (args image_run_args : list string)
    : outcome (list string) :=
  parsed ← parse_prefixed_args
             "-Dnative-image.benchmark.extra-agent-run-arg=" args;
  Ok (image_run_args ++ parsed).

(** [a or b] on lists: the first when it is not empty. *)
Definition extra_profile_run_arg (args image_run_args : list string)
    : outcome (list string) :=
  profile ← parse_prefixed_args
              "-Dnative-image.benchmark.extra-profile-run-arg=" args;
  extra_profile_run_args ←
    match profile with
    | [] => parse_prefixed_args "-Dnative-image.benchmark.extra-run-arg=" args
    | _ => Ok profile
    end;
  Ok (image_run_args ++ extra_profile_run_args).

Definition benchmark_output_dir (args : list string)
    : outcome (option string) :=
  parsed_args ← parse_prefixed_args
                  "-Dnative-image.benchmark.benchmark-output-dir=" args;
  match parsed_args with
  | [] => Ok None
  | first :: _ => Ok (Some first)
  end.

Definition default_stages : list string :=
  ["agent"; "instrument-image"; "instrument-run"; "image"; "run"].

Definition stages (args : list string) : outcome (list string) :=
  parsed_arg ← parse_prefixed_arg "-Dnative-image.benchmark.stages=" args
                 StagesSpecifiedTwice;
  match parsed_arg with
  | Some v => if String.eqb v "" then Ok default_stages else Str.split "," v
  | None => Ok default_stages
  end.

Definition skip_agent_assertions (args : list string)
    : outcome (option bool) :=
  parsed_args ← parse_prefixed_args
                  "-Dnative-image.benchmark.skip-agent-assertions=" args;
  if bool_decide ("true" ∈ parsed_args) || bool_decide ("True" ∈ parsed_args)
  then Ok (Some true)
  else if bool_decide ("false" ∈ parsed_args)
          || bool_decide ("False" ∈ parsed_args)
  then Ok (Some false)
  else Ok None.

Definition build_assertions (is_gate : bool) : list string :=
  if is_gate then ["-J-ea"; "-J-esa"] else [].

End Mixin.

(** ** JSON values and the Python operations the code applies to them *)

(** The value [json.load] returns: [None], [bool], [int], [float], [str],
    [list] or [dict] with string keys. *)
Inductive json : Type :=
  | JNull
  | JBool (b : bool)
  | JInt (z : Z)
  | JFloat (f : float)
  | JStr (s : string)
  | JList (l : list json)
  | JObj (o : gmap string json).

Module Json.

(** Truth value, as [if v:] tests it. *)
Definition truthy (v : json) : bool :=
  match v with
  | JNull => false
  | JBool b => b
  | JInt z => negb (z =? 0)
  | JFloat f => Py.float_truthy f
  | JStr s => negb (String.eqb s "")
  | JList l => negb (bool_decide (l = []))
  | JObj o => negb (bool_decide (o = ∅))
  end.

(** [key in v] for a string [key]: membership in a dict, equality with
    an element of a list, substring of a string; the other values are
    not containers. *)
Definition is_str (key : string) (v : json) : bool :=
  match v with JStr s => String.eqb s key | _ => false end.

Definition contains (key : string) (v : json) : outcome bool :=
  match v with
  | JObj o => Ok (bool_decide (is_Some (o !! key)))
  | JList l => Ok (existsb (is_str key) l)
  | JStr s =>
      Ok (match String.index 0 key s with Some _ => true | None => false end)
  | _ => Raise TypeError
  end.

(** [v[key]] for a string [key]. *)
Definition get (key : string) (v : json) : outcome json :=
  match v with
  | JObj o => match o !! key with Some x => Ok x | None => Raise KeyError end
  | _ => Raise TypeError
  end.

(** [len(v)] *)
Definition len (v : json) : outcome nat :=
  match v with
  | JList l => Ok (length l)
  | JObj o => Ok (size o)
  | JStr s => Ok (String.length s)
  | _ => Raise TypeError
  end.

(** [v[i]] for a non-negative [int] index. *)
Definition item (i : nat) (v : json) : outcome json :=
  match v with
  | JList l => match l !! i with Some x => Ok x | None => Raise IndexError end
  | JStr s =>
      match String.get i s with
      | Some c => Ok (JStr (String c EmptyString))
      | None => Raise IndexError
      end
  | JObj _ => Raise KeyError
  | _ => Raise TypeError
  end.

(** [float(v)]; [float_of_string] is Python's parser of a string. *)
Definition to_float (float_of_string : string → outcome float) (v : json)
    : outcome float :=
  match v with
  | JInt z => Py.float_of_int z
  | JFloat f => Ok f
  | JBool b => Ok (if b then 1 else 0)%float
  | JStr s => float_of_string s
  | _ => Raise TypeError
  end.

(** The float a value stands for in [v * 0.97]: a string, a list, a
    dict or [None] cannot be multiplied by a float. *)
Definition number (v : json) : outcome float :=
  match v with
  | JInt z => Py.float_of_int z
  | JFloat f => Ok f
  | JBool b => Ok (if b then 1 else 0)%float
  | _ => Raise TypeError
  end.

End Json.

(** ** BaseWrkBenchmarkSuite: configuration *)

(** References to the dictionaries that hold wrk2 results (see
    [computeAverage] below). A reference the store does not bind reads as
    the empty dictionary. *)
Abbreviation ref := positive (only parsing).
Abbreviation dict := (gmap string float) (only parsing).
Abbreviation store := (gmap positive (gmap string float)) (only parsing).

Module Wrk.

(** [readConfig(config, key, optional)]; [None] is Python's [None]. *)
Definition readConfig (config : json) (key : string) (optional : bool)
    : outcome (option json) :=
  present ← Json.contains key config;
  if (present : bool) then v ← Json.get key config; Ok (Some v)
  else if optional then Ok None
  else Abort (MandatoryEntryMissing key).

Definition readMandatory (config : json) (key : string) : outcome json :=
  v ← readConfig config key false;
  match v with Some x => Ok x | None => Ok JNull end.

(** [isScalarValue(value)]: an [int], [float], [bool] or [str]. *)
Definition isScalarValue (value : json) : bool :=
  match value with
  | JInt _ | JFloat _ | JBool _ | JStr _ => true
  | JNull | JList _ | JObj _ => false
  end.

(** Truth value of the optional entry: [None] when it is missing. *)
Definition truthy_opt (v : option json) : bool :=
  match v with Some x => Json.truthy x | None => false end.

(** The fields every record of the result gets. *)
Definition base_record (targetUrl connections threads script
    warmupRequestsPerSecond warmupDuration duration : json)
    : gmap string json :=
  <["duration" := duration]>
    (<["warmup-duration" := warmupDuration]>
      (<["warmup-requests-per-second" := warmupRequestsPerSecond]>
        (<["script" := script]>
          (<["threads" := threads]>
            (<["connections" := connections]>
              (<["target-url" := targetUrl]> ∅)))))).

(** The body of [for i in range(count)]. *)
Definition record_at (targetUrl connections threads script
    warmupRequestsPerSecond warmupDuration duration : json)
    (requestsPerSecond : option json) (i : nat)
    (results : list (gmap string json))
    : outcome (list (gmap string json)) :=
  s ← Json.item i script;
  w ← Json.item i warmupRequestsPerSecond;
  wd ← Json.item i warmupDuration;
  d ← Json.item i duration;
  let result := base_record targetUrl connections threads s w wd d in
  match requestsPerSecond with
  | Some rps =>
      if Json.truthy rps then
        r ← Json.item i rps;
        Ok (results ++ [<["requests-per-second" := r]> result])
      else Ok (results ++ [result])
  | None => Ok (results ++ [result])
  end.

(** [loadConfiguration(groupKey)], on the value [json.load] returned for
    the workload file. *)
Definition loadConfiguration (config : json) (groupKey : string)
    : outcome (list (gmap string json)) :=
  targetUrl ← readMandatory config "target-url";
  connections ← readMandatory config "connections";
  threads ← readMandatory config "threads";
  group ← readMandatory config groupKey;
  script ← readMandatory group "script";
  warmupRequestsPerSecond ← readMandatory group "warmup-requests-per-second";
  warmupDuration ← readMandatory group "warmup-duration";
  requestsPerSecond ← readConfig group "requests-per-second" true;
  duration ← readMandatory group "duration";
  let scalarScriptValue := isScalarValue script in
  if negb (eqb scalarScriptValue (isScalarValue warmupRequestsPerSecond))
     || negb (eqb scalarScriptValue (isScalarValue warmupDuration))
     || negb (eqb scalarScriptValue (isScalarValue duration))
  then Abort ElementCountMismatch
  else if scalarScriptValue then
    let result :=
      base_record targetUrl connections threads script
        warmupRequestsPerSecond warmupDuration duration in
    match requestsPerSecond with
    | Some rps =>
        if Json.truthy rps
        then Ok [<["requests-per-second" := rps]> result]
        else Ok [result]
    | None => Ok [result]
    end
  else
    count ← Json.len script;
    cw ← Json.len warmupRequestsPerSecond;
    if negb (count =? cw)%nat then Abort ElementCountMismatch else
    cwd ← Json.len warmupDuration;
    if negb (count =? cwd)%nat then Abort ElementCountMismatch else
    cd ← Json.len duration;
    if negb (count =? cd)%nat then Abort ElementCountMismatch else
    for_each
      (record_at targetUrl connections threads script
         warmupRequestsPerSecond warmupDuration duration requestsPerSecond)
      (seq 0 count) [].

(** *** Aggregation of wrk2 results *)

(** A wrk2 result is a Python [dict] from a label ("throughput" or a
    percentile) to a float. [computeAverage] updates the first
    dictionary of its argument in place: the dictionaries live in a
    store, and the argument is a list of references into it. *)

(** [x / count] with [count] a Python [int]. *)
Definition div_count (count : nat) (x : float) : outcome float :=
  c ← Py.float_of_int (Z.of_nat count); Py.div x c.

(** [average[key] += result[key]] *)
Definition add_entry (average result : ref) (key : string)
    (σ : store) : outcome store :=
  match (σ !!! average) !! key, (σ !!! result) !! key with
  | Some a, Some r =>
      Ok (<[average := <[key := (a + r)%float]> (σ !!! average)]> σ)
  | _, _ => Raise KeyError
  end.

(** [average[key] = value / count] *)
Definition div_entry (average : ref) (count : nat)
    (item : string * float) (σ : store) : outcome store :=
  q ← div_count count item.2;
  Ok (<[average := <[item.1 := q]> (σ !!! average)]> σ).

(** The body of [for i in range(1, count)]. *)
Definition accumulate (average : ref) (averageKeys : gset string)
    (result : ref) (σ : store) : outcome store :=
  if decide (averageKeys ≠ dom (σ !!! result)) then
    Abort (KeySetMismatch averageKeys (dom (σ !!! result)))
  else
    for_each (add_entry average result)
      (map_to_list (σ !!! result)).*1 σ.

Definition computeAverage (results : list ref) (σ : store)
    : outcome (ref * store) :=
  let count := length results in
  match results with
  | [] => Abort (EmptyInput count)
  | [only] => Ok (only, σ)
  | average :: rest =>
      let averageKeys := dom (σ !!! average) in
      σ1 ← for_each (accumulate average averageKeys) rest σ;
      σ2 ← for_each (div_entry average count)
             (map_to_list (σ1 !!! average)) σ1;
      Ok (average, σ2)
  end.

(** *** Command lines *)

(** One argument of a wrk command line. [str(v)] and the script path
    [os.path.join(applicationDist(), "workloads", v)] are kept symbolic. *)
Inductive arg : Type :=
  | Lit (s : string)
  | Str (v : json)
  | ScriptPath (v : json).

(** [config[key]] on a record of [loadConfiguration]. *)
Definition field (config : gmap string json) (key : string) : outcome json :=
  match config !! key with Some v => Ok v | None => Raise KeyError end.

(** [getScriptPath(config)]: [os.path.join] takes strings only. *)
Definition getScriptPath (config : gmap string json) : outcome arg :=
  script ← field config "script";
  match script with
  | JStr _ => Ok (ScriptPath script)
  | _ => Raise TypeError
  end.

Definition getWrkFlags (config : gmap string json) (latency : bool)
    : outcome (list arg) :=
  connections ← field config "connections";
  threads ← field config "threads";
  script ← getScriptPath config;
  targetUrl ← field config "target-url";
  threads' ← field config "threads";
  Ok ((if latency then [Lit "--latency"] else []) ++
      [Lit "--connections"; Str connections;
       Lit "--threads"; Str threads;
       Lit "--script"; script;
       Str targetUrl;
       Lit "--"; Str threads']).

Definition getStartupFlags (config : gmap string json) : outcome (list arg) :=
  flags ← getWrkFlags config true;
  Ok ([Lit "--duration"; Lit "15"] ++ flags).

Definition getWarmupFlags (config : gmap string json) : outcome (list arg) :=
  d ← field config "warmup-duration";
  r ← field config "warmup-requests-per-second";
  flags ← getWrkFlags config false;
  Ok ([Lit "--duration"; Str d] ++ [Lit "--rate"; Str r] ++ flags).

Definition getThroughputFlags (config : gmap string json)
    : outcome (list arg) :=
  d ← field config "duration";
  flags ← getWrkFlags config true;
  Ok ([Lit "--duration"; Str d] ++ flags).

Definition getLatencyFlags (config : gmap string json) (rate : json)
    : outcome (list arg) :=
  flags ← getThroughputFlags config;
  Ok ([Lit "--rate"; Str rate] ++ flags).

(** *** The target rate of the latency measurement *)

(** [self.calibratedThroughput[i]]; the attribute exists only once
    [calibrateLatencyTest] has run. *)
Definition calibrated_at (calibratedThroughput : option (list float))
    (i : nat) : outcome float :=
  match calibratedThroughput with
  | None => Raise AttributeError
  | Some l => match l !! i with Some x => Ok x | None => Raise IndexError end
  end.

(** The [if]/[else] of [testLatency] that chooses [expectedRate]. *)
Definition expectedRate (config : gmap string json)
    (calibratedThroughput : option (list float)) (i : nat) : outcome json :=
  match config !! "requests-per-second" with
  | Some rps =>
      if Json.truthy rps then Ok rps
      else x ← calibrated_at calibratedThroughput i;
           r ← Py.int (x * 0.75)%float; Ok (JInt r)
  | None =>
      x ← calibrated_at calibratedThroughput i;
      r ← Py.int (x * 0.75)%float; Ok (JInt r)
  end.

(** *** Running the load generators *)

Inductive tool : Type := Wrk1 | Wrk2.

(** One line of the text a measurement leaves for the output rules;
    the number formatting ([{:f}]) is kept symbolic. *)
Inductive line : Type :=
  | RawThroughput (pre raw : string)
      (* throughputPrefix + " " + matches[0] *)
  | Throughput (pre : string) (value : float)
      (* "{} Requests/sec: {:f}" *)
  | Latency (pre key : string) (value : float).
      (* "{} {} {:f}ms" *)

(** The part of the suite and of its environment that the measurements
    read and write. *)
Record world : Type := World {
  runs : list (tool * list arg);         (* the tool runs so far *)
  warnings : list (float * float);       (* mx.warn: expected, actual *)
  heap : store;                          (* the result dictionaries *)
  fresh : positive;                      (* the next unused reference *)
  calibratedThroughput : option (list float);
  startupOutput : list line;
  peakOutput : list line;
  latencyOutput : list line
}.

Definition M (A : Type) : Type := world → outcome (A * world).

Definition ret {A} (a : A) : M A := λ w, Ok (a, w).
Definition bind {A B} (m : M A) (f : A → M B) : M B :=
  λ w, match m w with
       | Ok (a, w') => f a w'
       | Abort why => Abort why
       | Raise e => Raise e
       end.
Definition lift {A} (o : outcome A) : M A :=
  λ w, match o with
       | Ok a => Ok (a, w)
       | Abort why => Abort why
       | Raise e => Raise e
       end.

#[export] Instance M_ret : MRet M := @ret.
#[export] Instance M_bind : MBind M := λ A B f m, bind m f.

(** [for x in l: body(x)] *)
Fixpoint each {A} (body : A → M unit) (l : list A) : M unit :=
  match l with
  | [] => ret ()
  | x :: l' => body x ;; each body l'
  end.

Section Tools.

(** What the embedding takes from outside the repository. *)
Variable config : json.
  (* the value of [json.load] on the workload file *)
Variable os_name : string.
  (* [mx.get_os()] *)
Variable binary_exists : tool → bool.
  (* [os.path.exists(wrkPath)] *)
Variable tool_output : nat → outcome string.
  (* the text the k-th tool run prints; [mx.run] aborts when the tool
     exits with an error *)
Variable findall_throughput : string → list string.
  (* [re.findall] of the Requests/sec pattern: the numbers matched *)
Variable findall_throughput_line : string → list string.
  (* [re.findall] of the Requests/sec pattern without a group: the
     lines matched *)
Variable findall_latency : string → list (string * string * string).
  (* [re.findall] of the percentile pattern: percentile, number, unit *)
Variable float_of_string : string → outcome float.
  (* [float(s)] for a string *)

(** [getOS()]; the name itself only selects the binary. *)
Definition getOS : outcome string :=
  if String.eqb os_name "linux" then Ok "linux"
  else if String.eqb os_name "darwin" then Ok "macos"
  else Abort (UnsupportedOS os_name).

(** [runWrk1(wrkFlags)] and [runWrk2(wrkFlags)] *)
Definition runWrk (t : tool) (wrkFlags : list arg) : M string :=
  λ w,
    distro ← getOS;
    if binary_exists t then
      output ← tool_output (length (runs w));
      Ok (output,
          World (runs w ++ [(t, wrkFlags)]) (warnings w) (heap w)
            (fresh w) (calibratedThroughput w) (startupOutput w)
            (peakOutput w) (latencyOutput w))
    else Raise ValueError.

Definition runWrk1 := runWrk Wrk1.
Definition runWrk2 := runWrk Wrk2.

Definition extractThroughput (output : string) : outcome float :=
  let matches := findall_throughput output in
  match matches with
  | [m] => float_of_string m
  | _ => Abort (NotOneThroughputResult matches)
  end.

Definition warn (expected actual : float) : M unit :=
  λ w, Ok ((), World (runs w) (warnings w ++ [(expected, actual)])
                 (heap w) (fresh w) (calibratedThroughput w)
                 (startupOutput w) (peakOutput w) (latencyOutput w)).

(** [verifyThroughput(output, expectedThroughput)]. The expected
    throughput is converted to a float only where the source multiplies
    it, after the output has been matched: [expected] is that
    conversion. *)
Definition verifyThroughput (output : string) (expected : outcome float)
    : M unit :=
  let matches := findall_throughput output in
  match matches with
  | [m] =>
      actualThroughput ← lift (float_of_string m);
      expectedThroughput ← lift expected;
      if (actualThroughput <? expectedThroughput * 0.97)%float
         || (expectedThroughput * 1.03 <? actualThroughput)%float
      then warn expectedThroughput actualThroughput
      else ret ()
  | _ => lift (Abort (NotOneThroughputResult matches))
  end.

Definition verifyWarmup (output : string) (config : gmap string json)
    : M unit :=
  r ← lift (field config "warmup-requests-per-second");
  expectedThroughput ← lift (Json.to_float float_of_string r);
  verifyThroughput output (Ok expectedThroughput).

(** *** Parsing a wrk2 report *)

(** [result[match[0]] = convertValue(timeUnitTable, float(match[1]),
    match[2], 'ms')] *)
Definition add_latency (m : string * string * string) (result : dict)
    : outcome dict :=
  x ← float_of_string m.1.2;
  val ← convertValue timeUnitTable x m.2 "ms";
  Ok (<[m.1.1 := val]> result).

(** [extractWrk2Results(output)]: the new dictionary is allocated in
    the store, and its reference returned. *)
Definition extractWrk2Results (output : string) : M ref :=
  λ w,
    t ← extractThroughput output;
    let matches := findall_latency output in
    match matches with
    | [] => Abort NoLatencyResults
    | _ =>
        result ← for_each add_latency matches {["throughput" := t]};
        Ok (fresh w,
            World (runs w) (warnings w) (<[fresh w := result]> (heap w))
              (Pos.succ (fresh w)) (calibratedThroughput w)
              (startupOutput w) (peakOutput w) (latencyOutput w))
    end.

(** [writeWrk2Results(throughputPrefix, latencyPrefix, results)]; the
    lines follow the order of [map_to_list], not Python's insertion
    order. *)
Definition wrk2_line (throughputPrefix latencyPrefix : string)
    (item : string * float) : line :=
  if String.eqb item.1 "throughput"
  then Throughput throughputPrefix item.2
  else Latency latencyPrefix item.1 item.2.

Definition writeWrk2Results (throughputPrefix latencyPrefix : string)
    (results : list ref) : M (list line) :=
  λ w,
    '(average, σ) ← computeAverage results (heap w);
    Ok (wrk2_line throughputPrefix latencyPrefix
          <$> map_to_list (σ !!! average),
        World (runs w) (warnings w) σ (fresh w) (calibratedThroughput w)
          (startupOutput w) (peakOutput w) (latencyOutput w)).

(** [writeWrk1Results(throughputPrefix, latencyPrefix, output)] *)
Definition wrk1_latency (latencyPrefix : string)
    (m : string * string * string) (result : list line)
    : outcome (list line) :=
  x ← float_of_string m.1.2;
  val ← convertValue timeUnitTable x m.2 "ms";
  Ok (result ++ [Latency latencyPrefix m.1.1 val]).

Definition writeWrk1Results (throughputPrefix latencyPrefix : string)
    (output : string) : outcome (list line) :=
  let matches := findall_throughput_line output in
  match matches with
  | [m] =>
      let latencies := findall_latency output in
      match latencies with
      | [] => Abort NoLatencyResults
      | _ =>
          for_each (wrk1_latency latencyPrefix) latencies
            [RawThroughput throughputPrefix m]
      end
  | _ => Abort (NotOneThroughputResult matches)
  end.

(** *** The measurements *)

Definition set_calibratedThroughput (l : list float) : M unit :=
  λ w, Ok ((), World (runs w) (warnings w) (heap w) (fresh w) (Some l)
                 (startupOutput w) (peakOutput w) (latencyOutput w)).

Definition append_calibratedThroughput (x : float) : M unit :=
  λ w, match calibratedThroughput w with
       | Some l =>
           Ok ((), World (runs w) (warnings w) (heap w) (fresh w)
                     (Some (l ++ [x])) (startupOutput w) (peakOutput w)
                     (latencyOutput w))
       | None => Raise AttributeError
       end.

Definition set_startupOutput (o : list line) : M unit :=
  λ w, Ok ((), World (runs w) (warnings w) (heap w) (fresh w)
                 (calibratedThroughput w) o (peakOutput w)
                 (latencyOutput w)).

Definition set_peakOutput (o : list line) : M unit :=
  λ w, Ok ((), World (runs w) (warnings w) (heap w) (fresh w)
                 (calibratedThroughput w) (startupOutput w) o
                 (latencyOutput w)).

Definition set_latencyOutput (o : list line) : M unit :=
  λ w, Ok ((), World (runs w) (warnings w) (heap w) (fresh w)
                 (calibratedThroughput w) (startupOutput w)
                 (peakOutput w) o).

(** The first loop of [calibrateLatencyTest] and of [testLatency]. *)
Definition warmup (config : gmap string json) : M unit :=
  wrkFlags ← lift (getWarmupFlags config);
  warmupOutput ← runWrk2 wrkFlags;
  verifyWarmup warmupOutput config.

(** The second loop of [calibrateLatencyTest]. *)
Definition measure_throughput (config : gmap string json) : M unit :=
  wrkFlags ← lift (getThroughputFlags config);
  throughputOutput ← runWrk1 wrkFlags;
  x ← lift (extractThroughput throughputOutput);
  append_calibratedThroughput x.

Definition calibrateLatencyTest : M unit :=
  configs ← lift (loadConfiguration config "latency");
  if (length configs <? 1)%nat then lift (Abort NoLuaScript) else
  each warmup configs ;;
  set_calibratedThroughput [] ;;
  each measure_throughput configs.

(** The second loop of [testLatency]: its body for the script at
    index [i], which appends the reference of the parsed report to
    [results]. *)
Definition measure_latency (item : nat * gmap string json)
    (results : list ref) : M (list ref) :=
  λ w,
    (rate ← lift (expectedRate item.2 (calibratedThroughput w) item.1);
     wrkFlags ← lift (getLatencyFlags item.2 rate);
     constantRateOutput ← runWrk2 wrkFlags;
     verifyThroughput constantRateOutput (Json.number rate) ;;
     r ← extractWrk2Results constantRateOutput;
     ret (results ++ [r])) w.

Fixpoint measure_latencies (items : list (nat * gmap string json))
    (results : list ref) : M (list ref) :=
  match items with
  | [] => ret results
  | item :: items' =>
      results' ← measure_latency item results;
      measure_latencies items' results'
  end.

Definition testLatency : M unit :=
  configs ← lift (loadConfiguration config "latency");
  if (length configs <? 1)%nat then lift (Abort NoLuaScript) else
  each warmup configs ;;
  results ← measure_latencies (imap pair configs) [];
  out ← writeWrk2Results "throughput-for-peak-latency" "peak-latency"
           results;
  set_latencyOutput out.

Definition single_config : M (gmap string json) :=
  configs ← lift (loadConfiguration config "throughput");
  match configs with
  | [c] => ret c
  | _ => lift (Abort NotOneLuaScript)
  end.

Definition testStartupPerformance : M unit :=
  c ← single_config;
  wrkFlags ← lift (getStartupFlags c);
  output ← runWrk1 wrkFlags;
  out ← lift (writeWrk1Results "startup-throughput" "startup-latency-co"
                 output);
  set_startupOutput out.

Definition testPeakPerformance (warm : bool) : M unit :=
  c ← single_config;
  (if warm then warmup c else ret ()) ;;
  wrkFlags ← lift (getThroughputFlags c);
  peakOutput ← runWrk1 wrkFlags;
  out ← lift (writeWrk1Results "peak-throughput" "peak-latency-co"
                 peakOutput);
  set_peakOutput out.

End Tools.

End Wrk.

(** ** BaseJMeterBenchmarkSuite: trimming the trailing datapoints *)

Module JMeter.

(** [int(len(results) * .10)] *)
Definition tailDatapointsToSkip {A} (results : list A) : outcome Z :=
  n ← Py.float_of_int (Z.of_nat (length results));
  Py.int (n * 0.1)%float.

(** [l[:stop]]: a negative [stop] counts from the end. *)
Definition slice_to {A} (stop : Z) (l : list A) : list A :=
  if stop <? 0 then take (Z.to_nat (Z.of_nat (length l) + stop)) l
  else take (Z.to_nat stop) l.

(** [results[:len(results) - self.tailDatapointsToSkip(results)]] *)
Definition trimTrailing {A} (results : list A) : outcome (list A) :=
  skip ← tailDatapointsToSkip results;
  Ok (slice_to (Z.of_nat (length results) - skip) results).

(** [run]: [addAverageAcrossLatestResults] belongs to the averaging
    mixin of [mx_benchmark], outside this file; it updates the trimmed
    list in place. *)
Definition run {A} (addAverageAcrossLatestResults : list A → string → list A)
    (super_run : outcome (list A)) : outcome (list A) :=
  results ← super_run;
  results ← trimTrailing results;
  Ok (addAverageAcrossLatestResults results "throughput").

End JMeter.

(** ** BaseMicroserviceBenchmarkSuite *)

Module Microservice.

Definition validateReturnCode (retcode : Z) : bool := retcode =? 143.

(** *** The port probe *)

(** What [psutil] shows of a process: its inet sockets, each with its
    kind, its local and remote address and its state. An address is the
    pair [addr(ip, port)] or, for a socket that has none, the empty tuple
    ([None] here). Asking a process for its sockets may raise (access
    denied, the process is gone), and so may sending it a signal. *)
Record addr : Type := Addr { ip : string; port : Z }.

Inductive sock_type : Type := SOCK_STREAM | SOCK_DGRAM.

Inductive conn_status : Type :=
  | CONN_ESTABLISHED | CONN_SYN_SENT | CONN_SYN_RECV | CONN_FIN_WAIT1
  | CONN_FIN_WAIT2 | CONN_TIME_WAIT | CONN_CLOSE | CONN_CLOSE_WAIT
  | CONN_LAST_ACK | CONN_LISTEN | CONN_CLOSING | CONN_NONE.

Record sconn : Type := Sconn {
  type : sock_type;
  laddr : option addr;
  raddr : option addr;
  status : conn_status
}.

Record process : Type := Process {
  pid : Z;
  connections : outcome (list sconn);
  send_signal : Z → outcome unit
}.

(** What the probe does, in order. *)
Inductive event : Type :=
  | ProcessIter                      (* psutil.process_iter() *)
  | Sleep (seconds : Z)              (* time.sleep(seconds) *)
  | SendSignal (pid : Z) (sig : Z).  (* proc.send_signal(sig) *)

(** The state of the probe: the number of process tables read so far
    and the events so far. *)
Abbreviation probing := (nat * list event)%type (only parsing).

(** [for conns in proc.connections(kind='inet'):
       if conns.laddr.port == port: return proc]
    on the sockets listed: [true] when the loop returns. The empty tuple
    has no attribute [port]. *)
Fixpoint scan_connections (p : Z) (conns : list sconn) : outcome bool :=
  match conns with
  | [] => Ok false
  | c :: rest =>
      match laddr c with
      | Some a => if port a =? p then Ok true else scan_connections p rest
      | None => Raise AttributeError
      end
  end.

(** The body of [for proc in psutil.process_iter()]: the [try] around
    the inner loop, whose [except: pass] goes on with the next process
    whatever was raised. *)
Definition has_port (p : Z) (proc : process) : bool :=
  match conns ← connections proc; scan_connections p conns with
  | Ok found => found
  | _ => false
  end.

(** [for _ in range(attempts)]: [snapshot k] is the process table at
    the k-th call of [process_iter] since the start, [k] the number of
    calls so far and [log] the events so far. *)
Fixpoint poll (snapshot : nat → list process) (p : Z) (attempts : nat)
    (k : nat) (log : list event) : option process * (nat * list event) :=
  match attempts with
  | O => (None, (k, log))
  | S n =>
      match find (has_port p) (snapshot k) with
      | Some proc => (Some proc, (S k, log ++ [ProcessIter]))
      | None => poll snapshot p n (S k) (log ++ [ProcessIter; Sleep 1])
      end
  end.

(** [waitForPort(port, timeout)]; [psutil] tells whether the module can
    be imported. *)
Definition waitForPort (psutil : bool) (snapshot : nat → list process)
    (p : Z) (timeout : Z) : action probing (option process) :=
  λ s,
    if psutil then
      let r := poll snapshot p (Z.to_nat (timeout + 1)) s.1 s.2 in
      (Ok r.1, r.2)
    else (Abort MissingPsutil, (s.1, s.2 ++ [Sleep 5])).

Definition SIGTERM : Z := 15.

(** [terminateApplication(port)] *)
Definition terminateApplication (psutil : bool)
    (snapshot : nat → list process) (p : Z) : action probing bool :=
  proc ← waitForPort psutil snapshot p 0;
  match proc with
  | Some pr =>
      (λ s, (send_signal pr SIGTERM ;; Ok true,
             (s.1, s.2 ++ [SendSignal (pid pr) SIGTERM])))
      : action probing bool
  | None => mret false
  end.

(** *** The derived metric *)

Section Metric.

Variable float_of_string : string → outcome float.

(** A datapoint is a [dict] from field names to strings and numbers. *)
Definition get (key : string) (datapoint : gmap string json) : outcome json :=
  match datapoint !! key with Some v => Ok v | None => Raise KeyError end.

(** The body of [for datapoint in datapoints]. *)
Definition scan (datapoint : gmap string json)
    (found : option (gmap string json) * option (gmap string json))
    : outcome (option (gmap string json) * option (gmap string json)) :=
  name ← get "metric.name" datapoint;
  let tput := if Json.is_str "peak-throughput" name then Some datapoint
              else found.1 in
  name' ← get "metric.name" datapoint;
  let rss := if Json.is_str "max-rss" name' then Some datapoint
             else found.2 in
  Ok (tput, rss).

(** [convertValue(table, float(datapoint['metric.value']),
    datapoint['metric.unit'], toUnit)]; a unit that is not a string is
    in no table, and cannot be appended to the abort message. *)
Definition convert_metric (table : gmap string Py.num)
    (datapoint : gmap string json) (toUnit : string) : outcome float :=
  v ← get "metric.value" datapoint;
  x ← Json.to_float float_of_string v;
  u ← get "metric.unit" datapoint;
  match u with
  | JStr fromUnit => convertValue table x fromUnit toUnit
  | _ => Raise TypeError
  end.

Definition computePeakThroughputRSS (datapoints : list (gmap string json))
    : outcome (option (gmap string json)) :=
  '(tputDatapoint, rssDatapoint) ← for_each scan datapoints (None, None);
  match tputDatapoint, rssDatapoint with
  | Some tput, Some rss =>
      if bool_decide (tput = ∅) || bool_decide (rss = ∅) then Ok None else
      newtput ← convert_metric tputUnitTable tput "op/s";
      newrss ← convert_metric memUnitTable rss "GB";
      value ← Py.div newtput newrss;
      Ok (Some (<["metric.better" := JStr "higher"]>
                  (<["metric.unit" := JStr "op/GB*s"]>
                    (<["metric.value" := JFloat value]>
                      (<["metric.name" := JStr "ops-per-GB-second"]>
                        tput)))))
  | _, _ => Ok None
  end.

(** [validateStdoutWithDimensions]: the datapoints of the parent class
    with the derived one appended, when there is one. *)
Definition validateStdoutWithDimensions
    (super_datapoints : outcome (list (gmap string json)))
    : outcome (list (gmap string json)) :=
  datapoints ← super_datapoints;
  newdatapoint ← computePeakThroughputRSS datapoints;
  match newdatapoint with
  | Some d => if bool_decide (d = ∅) then Ok datapoints
              else Ok (datapoints ++ [d])
  | None => Ok datapoints
  end.

End Metric.

(** *** The environment of a phase *)

(** [EmptyEnv(env).__enter__]: the new value of [os.environ], from the
    one there was: a copy of [env] that keeps the proxy exceptions of
    the old environment. *)
Definition EmptyEnv_enter (env environ : gmap string string)
    : gmap string string :=
  let new_environ :=
    match environ !! "no_proxy" with
    | Some v => <["no_proxy" := v]> env
    | None => env
    end in
  match environ !! "NO_PROXY" with
  | Some v => <["NO_PROXY" := v]> new_environ
  | None => new_environ
  end.

(** *** The stage controller *)

(** ['needle' in stage] on strings. *)
Definition substring (needle s : string) : bool :=
  match String.index 0 needle s with Some _ => true | None => false end.

Section Stages.

(** The state of the suite and of its environment. *)
Context {W : Type}.

(** The command of the server, and what the command mapper hooks make
    of it while the tracker is enabled ([true]) or disabled. *)
Context {command : Type}.
Variable apply_command_mapper_hooks : bool → command → command.

(** [mx.run(command, ..., nonZeroIsFatal)]: runs the server until it
    exits, and returns its exit code. *)
Variable mx_run : command → action W Z.

(** The targets of the measurement threads, and [setup_application],
    which every thread runs first. *)
Variable setup_application : action W unit.
Variable testTimeToFirstResponseInBackground : action W unit.
Variable testStartupPerformanceInBackground : action W unit.
Variable testPeakPerformanceInBackground : bool → action W unit.
Variable calibrateLatencyTestInBackground : action W unit.
Variable testLatencyInBackground : action W unit.

(** [self.loadConfiguration("latency")], [self.measureLatency] and
    [self.NumMeasureTimeToFirstResponse]. *)
Variable latencyConfiguration : action W (list (gmap string json)).
Variable measureLatency : W → bool.
Variable NumMeasureTimeToFirstResponse : nat.

(** [os.environ], and [self.get_env()]. *)
Variable os_environ : W → gmap string string.
Variable set_os_environ : gmap string string → W → W.
Variable get_env : gmap string string.

(** [with EmptyEnv(self.get_env()): body]: the environment is replaced
    on entry and put back on exit, however the body ends. *)
Definition with_EmptyEnv {A} (body : action W A) : action W A :=
  λ w,
    let _prev_environ := os_environ w in
    let r := body (set_os_environ (EmptyEnv_enter get_env _prev_environ) w) in
    (r.1, set_os_environ _prev_environ r.2).

(** [startDaemonThread(target, args)] up to the [join()] of the thread:
    the thread runs [setup_application] and then its target. Whatever
    ends a thread (its return, an exception, the [SystemExit] of
    [mx.abort]) ends that thread only; [join] returns nothing, so all
    that is left of the thread is what it did to the state. *)
Definition startDaemonThread (target : action W unit) (w : W) : W :=
  ((setup_application ;; target) w).2.

(** One phase: the thread is started, [mx.run] runs the server in the
    foreground until it exits (the thread sends it SIGTERM when the
    measurement is over), the thread is joined. The server is run
    whatever becomes of the thread; the phase fails only when [mx.run]
    does. *)
Definition phase (target : action W unit) (cmd : command) : action W Z :=
  with_EmptyEnv (λ w, mx_run cmd (startDaemonThread target w)).

(** [if not self.validateReturnCode(returnCode): mx.abort(...)] *)
Definition validated (r : action W Z) : action W Z :=
  returnCode ← r;
  if validateReturnCode returnCode then mret returnCode
  else abort (UnexpectedReturnCode returnCode).

(** [NativeImageBenchmarkMixin.run_stage] *)
Definition mixin_run_stage (stage : string) (cmd : command) : action W Z :=
  let final_command :=
    if String.eqb stage "run" then apply_command_mapper_hooks true cmd
    else cmd in
  mx_run final_command.

(** [for _ in range(n)] around the time-to-first-response phase. *)
Fixpoint first_responses (n : nat) (server_command : command)
    : action W unit :=
  match n with
  | O => mret ()
  | S n' =>
      validated (phase testTimeToFirstResponseInBackground server_command) ;;
      first_responses n' server_command
  end.

(** [not any([c.get("requests-per-second") for c in ...])] *)
Definition no_fixed_rate (configs : list (gmap string json)) : bool :=
  negb (existsb
          (λ c, match c !! "requests-per-second" with
                | Some v => Json.truthy v
                | None => false
                end) configs).

Definition run_stage (stage : string) (server_command : command)
    : action W Z :=
  if substring "image" stage then
    mixin_run_stage stage server_command
  else if String.eqb stage "run" then
    let serverCommandWithTracker :=
      apply_command_mapper_hooks true server_command in
    let serverCommandWithoutTracker :=
      apply_command_mapper_hooks false server_command in
    first_responses NumMeasureTimeToFirstResponse server_command ;;
    validated
      (phase testStartupPerformanceInBackground serverCommandWithoutTracker) ;;
    returnCode ← validated
      (phase (testPeakPerformanceInBackground true) serverCommandWithTracker);
    measure ← (λ w, (Ok (measureLatency w), w));
    if (measure : bool) then
      configs ← latencyConfiguration;
      (if no_fixed_rate configs then
         validated
           (phase calibrateLatencyTestInBackground
              serverCommandWithoutTracker) ;; mret ()
       else mret ()) ;;
      validated (phase testLatencyInBackground serverCommandWithoutTracker)
    else mret returnCode
  else if String.eqb stage "agent" || substring "instrument-run" stage then
    phase (testPeakPerformanceInBackground false) server_command
  else abort (UnexpectedStage stage).

End Stages.

(** *** The background measurements *)

Section Background.

(** The state of the suite, with the part of it the probe uses. *)
Context {W : Type}.
Variable probe_state : W → probing.
Variable set_probe_state : probing → W → W.

Variable psutil : bool.
Variable snapshot : nat → list process.
Variable servicePort : Z.

(** A call of the probe from the suite. *)
Definition probe {A} (f : action probing A) : action W A :=
  λ w, let r := f (probe_state w) in (r.1, set_probe_state r.2 w).

(** [if not waitForPort(servicePort()): mx.abort(...)] *)
Definition await_server : action W unit :=
  proc ← probe (waitForPort psutil snapshot servicePort 60);
  match proc with
  | Some _ => mret ()
  | None => abort ServerNotFound
  end.

(** [if not terminateApplication(servicePort()): mx.abort(...)] *)
Definition stop_server : action W unit :=
  done ← probe (terminateApplication psutil snapshot servicePort);
  if (done : bool) then mret () else abort ServerNotTerminated.

(** [testStartupPerformanceInBackground], [testPeakPerformanceInBackground],
    [calibrateLatencyTestInBackground] and [testLatencyInBackground],
    for the measurement of the suite. *)
Definition inBackground (measure : action W unit) : action W unit :=
  await_server ;; measure ;; stop_server.

(** [testTimeToFirstResponseInBackground] measures before it looks
    for the port. *)
Definition firstResponseInBackground (measure : action W unit)
    : action W unit :=
  measure ;; await_server ;; stop_server.

End Background.

End Microservice.

(** ** Binary64 values *)

Module B64.

(** The record [(m, r, s)] of the rounding procedure locates the
    rational [N / D]: it is [m + r/2 + d] with [d = 0] when the sticky
    bit [s] is unset and [0 < d < 1/2] when it is set. *)
Definition located (mrs : shr_record) (N D : Z) : Prop :=
  0 ≤ shr_m mrs ∧
  let X := 2 * N - (2 * shr_m mrs + Z.b2z (shr_r mrs)) * D in
  if shr_s mrs then 0 < X < D else X = 0.

(** A finite number that is not subnormal: sign, 53-bit mantissa and
    exponent. *)
Definition normal (x : spec_float) (s : bool) (m : positive) (e : Z)
    : Prop :=
  x = S754_finite s m e ∧ 2 ^ 52 ≤ Z.pos m < 2 ^ 53 ∧ -1074 ≤ e ≤ 971.

(** The rational a finite number stands for; 0 for the others. *)
Definition value (x : float) : Q :=
  match Prim2SF x with
  | S754_finite s m e => inject_Z (cond_Zopp s (Z.pos m)) * 2 ^ e
  | _ => 0
  end.

Definition finite (x : float) : bool :=
  match Prim2SF x with
  | S754_finite _ _ _ | S754_zero _ => true
  | _ => false
  end.

(** [x] is finite and within the relative tolerance [tol] of [y]. *)
Definition within (tol : Q) (x y : float) : Prop :=
  finite x = true ∧ finite y = true ∧
  (Qabs (value x - value y) <= tol * Qabs (value y))%Q.

(** [a] approximates the rational [b] with relative error [u]. *)
Definition approx (u a b : Q) : Prop := (Qabs (a - b) <= u * Qabs b)%Q.

(** The unit roundoff of binary64. *)
Definition u64 : Q := 1 # (2 ^ 53).

(** The tolerance of a conversion there and back: eight unit
    roundoffs, 2^-50. *)
Definition tolerance : Q := 1 # 2 ^ 50.

(** A factor of a conversion table: positive, normal, of moderate
    magnitude. *)
Definition factor (f : float) : bool :=
  match Prim2SF f with
  | S754_finite false m e =>
      (2 ^ 52 <=? Z.pos m)%Z && (Z.pos m <? 2 ^ 53)%Z &&
      (-100 <=? e)%Z && (e <=? 0)%Z
  | _ => false
  end.

End B64.

(** ** Notions used to state the properties *)

Module Spec.

(** The value [average[key]] holds after the accumulation loop of
    [computeAverage] over [rest], when it held [x0] before: every result
    adds its own value, and a result that is the average dictionary
    itself adds the running value. *)
Definition total (σ : store) (average : ref) (key : string)
    (rest : list ref) (x0 : float) : float :=
  foldl (λ acc r,
           (acc + (if decide (r = average) then acc
                   else default 0 ((σ !!! r) !! key)))%float)
    x0 rest.

(** The arithmetic mean as binary64 computes it, from left to right;
    one value is its own mean. *)
Definition fmean (xs : list float) : float :=
  match xs with
  | [] => nan
  | [x] => x
  | x :: xs' => (foldl PrimFloat.add x xs' / Py.Z2F (Z.of_nat (length xs)))%float
  end.

(** The values the results hold for [key]. *)
Definition column (σ : store) (key : string) (results : list ref)
    : list float :=
  (λ r, default 0%float ((σ !!! r) !! key)) <$> results.

(** All the results have the key set of the first. *)
Definition same_keys (σ : store) (results : list ref) : Prop :=
  match results with
  | [] => True
  | a :: rest => Forall (λ r, dom (σ !!! r) = dom (σ !!! a)) rest
  end.

(** The store is the same outside the reference [a]. *)
Definition frame (a : ref) (σ σ' : store) : Prop :=
  ∀ r, r ≠ a → σ' !! r = σ !! r.

(** Example stores: two results with different values, and three equal
    results held by three different dictionaries. *)
Definition two_results : store :=
  {[ 1%positive := {[ "throughput" := 1000%float; "99.000%" := 2%float ]};
     2%positive := {[ "throughput" := 3000%float; "99.000%" := 4%float ]} ]}.

Definition three_tenths : store :=
  {[ 1%positive := {[ "throughput" := 0.1%float ]};
     2%positive := {[ "throughput" := 0.1%float ]};
     3%positive := {[ "throughput" := 0.1%float ]} ]}.

(** The datapoint is named [name]. *)
Definition named (name : string) (datapoint : gmap string json) : bool :=
  match datapoint !! "metric.name" with
  | Some v => Json.is_str name v
  | None => false
  end.

(** The last datapoint of the batch that is named [name]. *)
Definition last_named (name : string) (datapoints : list (gmap string json))
    : option (gmap string json) :=
  last (filter (λ d, named name d = true) datapoints).

(** A batch with a peak throughput of 1000 op/s and a maximal resident
    set size of 2 GB. *)
Definition peak_1000 : gmap string json :=
  {[ "metric.name" := JStr "peak-throughput"; "metric.value" := JFloat 1000;
     "metric.unit" := JStr "op/s"; "metric.better" := JStr "higher" ]}.

Definition rss_2GB : gmap string json :=
  {[ "metric.name" := JStr "max-rss"; "metric.value" := JInt 2;
     "metric.unit" := JStr "GB"; "metric.better" := JStr "lower" ]}.

(** The process lists an inet socket whose local port is [p], and every
    socket it lists before that one has a local address. *)
Definition on_port (p : Z) (proc : Microservice.process) : Prop :=
  ∃ before c after a,
    Microservice.connections proc = Ok (before ++ c :: after) ∧
    Microservice.laddr c = Some a ∧ Microservice.port a = p ∧
    Forall (λ b, is_Some (Microservice.laddr b)) before.

(** [proc] is the first process of the table that is on the port [p];
    no process of the table is. *)
Definition first_on_port (p : Z) (procs : list Microservice.process)
    (proc : Microservice.process) : Prop :=
  ∃ before after,
    procs = before ++ proc :: after ∧ on_port p proc ∧
    Forall (λ q, ¬ on_port p q) before.

Definition none_on_port (p : Z) (procs : list Microservice.process) : Prop :=
  Forall (λ q, ¬ on_port p q) procs.

(** The process has a socket that listens on the port [p]. *)
Definition listens_on (p : Z) (proc : Microservice.process) : Prop :=
  ∃ conns c a,
    Microservice.connections proc = Ok conns ∧ c ∈ conns ∧
    Microservice.status c = Microservice.CONN_LISTEN ∧
    Microservice.laddr c = Some a ∧ Microservice.port a = p.

(** The events of [i] fruitless attempts. *)
Definition fruitless (i : nat) : list Microservice.event :=
  concat (replicate i [Microservice.ProcessIter; Microservice.Sleep 1]).

(** Example processes: a server that listens on TCP port 8080, a
    process with a UDP socket bound to port 8080, and one that is
    connected to the server from port 50000. *)
Definition server : Microservice.process :=
  Microservice.Process 200
    (Ok [Microservice.Sconn Microservice.SOCK_STREAM
           (Some (Microservice.Addr "0.0.0.0" 8080)) None
           Microservice.CONN_LISTEN])
    (λ _, Ok ()).

Definition udp_8080 : Microservice.process :=
  Microservice.Process 100
    (Ok [Microservice.Sconn Microservice.SOCK_DGRAM
           (Some (Microservice.Addr "0.0.0.0" 8080)) None
           Microservice.CONN_NONE])
    (λ _, Ok ()).

Definition client : Microservice.process :=
  Microservice.Process 300
    (Ok [Microservice.Sconn Microservice.SOCK_STREAM
           (Some (Microservice.Addr "127.0.0.1" 50000))
           (Some (Microservice.Addr "127.0.0.1" 8080))
           Microservice.CONN_ESTABLISHED])
    (λ _, Ok ()).

(** Process tables in which the server shows up at the third reading. *)
Definition third_reading (k : nat) : list Microservice.process :=
  if (k <? 2)%nat then [client] else [client; server].

(** The exit codes of the server invocations of a stage, in order, kept
    beside the state: [logged_run] records the code [mx.run] returns, and
    [keep_log] leaves the record alone. *)
Definition logged_run {W command : Type}
    (mx_run : command → action W Z) (cmd : command)
    : action (list Z * W) Z :=
  λ hw, match mx_run cmd hw.2 with
        | (Ok rc, w') => (Ok rc, (hw.1 ++ [rc], w'))
        | (r, w') => (r, (hw.1, w'))
        end.

Definition keep_log {W A : Type} (f : action W A) : action (list Z * W) A :=
  λ hw, ((f hw.2).1, (hw.1, (f hw.2).2)).

(** [run_stage] with the exit codes recorded. *)
Definition logged_stage {W command : Type}
    (apply_command_mapper_hooks : bool → command → command)
    (mx_run : command → action W Z)
    (setup_application firstResponse startup : action W unit)
    (peak : bool → action W unit)
    (calibrate latency : action W unit)
    (latencyConfiguration : action W (list (gmap string json)))
    (measureLatency : W → bool) (NumMeasureTimeToFirstResponse : nat)
    (os_environ : W → gmap string string)
    (set_os_environ : gmap string string → W → W)
    (get_env : gmap string string)
    : string → command → action (list Z * W) Z :=
  Microservice.run_stage apply_command_mapper_hooks
    (logged_run mx_run)
    (keep_log setup_application)
    (keep_log firstResponse) (keep_log startup)
    (λ warm, keep_log (peak warm))
    (keep_log calibrate) (keep_log latency)
    (keep_log latencyConfiguration) (λ hw, measureLatency hw.2)
    NumMeasureTimeToFirstResponse
    (λ hw, os_environ hw.2) (λ e hw, (hw.1, set_os_environ e hw.2)) get_env.

(** What a stage that checks the exit codes adds to the record [h] of
    the codes, ending with the outcome [r]: the codes of its invocations
    are all 143, between [lo] and [hi] of them when the stage returns; or
    they are all 143 up to a last one, with which the stage aborts. *)
Definition checked {A} (lo hi : nat) (h h' : list Z) (r : outcome A) : Prop :=
  ∃ codes, h' = h ++ codes ∧
    ((Forall (λ c, c = 143) codes ∧
      (is_ok r = true → (lo ≤ length codes ≤ hi)%nat)) ∨
     (∃ good c, codes = good ++ [c] ∧ Forall (λ x, x = 143) good ∧
                c ≠ 143 ∧ r = Abort (UnexpectedReturnCode c))).

(** The commands given to [mx.run] during a stage, in order, kept
    beside the state. *)
Definition commands_run {W command : Type}
    (mx_run : command → action W Z) (cmd : command)
    : action (list command * W) Z :=
  λ hw, ((mx_run cmd hw.2).1, (hw.1 ++ [cmd], (mx_run cmd hw.2).2)).

Definition keep_commands {W command A : Type} (f : action W A)
    : action (list command * W) A :=
  λ hw, ((f hw.2).1, (hw.1, (f hw.2).2)).

(** [run_stage] with the commands recorded. *)
Definition traced_stage {W command : Type}
    (apply_command_mapper_hooks : bool → command → command)
    (mx_run : command → action W Z)
    (setup_application firstResponse startup : action W unit)
    (peak : bool → action W unit)
    (calibrate latency : action W unit)
    (latencyConfiguration : action W (list (gmap string json)))
    (measureLatency : W → bool) (NumMeasureTimeToFirstResponse : nat)
    (os_environ : W → gmap string string)
    (set_os_environ : gmap string string → W → W)
    (get_env : gmap string string)
    : string → command → action (list command * W) Z :=
  Microservice.run_stage apply_command_mapper_hooks
    (commands_run mx_run)
    (keep_commands setup_application)
    (keep_commands firstResponse) (keep_commands startup)
    (λ warm, keep_commands (peak warm))
    (keep_commands calibrate) (keep_commands latency)
    (keep_commands latencyConfiguration) (λ hw, measureLatency hw.2)
    NumMeasureTimeToFirstResponse
    (λ hw, os_environ hw.2) (λ e hw, (hw.1, set_os_environ e hw.2)) get_env.

(** A server that exits with the code [rc], whatever it is asked to run,
    and one that exits with 143 until it has run [n] times and with [rc]
    from then on; the state counts its runs. *)
Definition exits_with (rc : Z) (cmd : unit) : action unit Z :=
  λ w, (Ok rc, w).

Definition exits_after (n : nat) (rc : Z) (cmd : unit) : action nat Z :=
  λ runs, (Ok (if (runs <? n)%nat then 143 else rc), S runs).

(** A suite whose measurements all succeed, with no latency script, and
    whose server always exits with [rc]. *)
Abbreviation plain_stage rc :=
  (logged_stage (W := unit) (command := unit) (λ _ c, c) (exits_with rc)
     (mret ()) (mret ()) (mret ()) (λ _, mret ()) (mret ()) (mret ())
     (mret []) (λ _, true) 10 (λ _, ∅) (λ _ w, w) ∅).

(** A suite whose measurement threads all fail to find the server, and
    whose server exits with [rc] from its run number [n] on. *)
Abbreviation failing_threads n rc :=
  (logged_stage (W := nat) (command := unit) (λ _ c, c) (exits_after n rc)
     (mret ()) (abort ServerNotFound) (abort ServerNotFound)
     (λ _, abort ServerNotFound) (abort ServerNotFound)
     (abort ServerNotFound) (mret []) (λ _, true) 10 (λ _, ∅) (λ _ w, w) ∅).

(** The workload file holds the connection settings [tu], [co], [th]
    and, under [groupKey], a group with the four mandatory fields and the
    optional fixed rate [rps] ([None] when the key is missing). *)
Definition workload (top : gmap string json) (groupKey : string)
    (tu co th script wrps wd d : json) (rps : option json) : Prop :=
  top !! "target-url" = Some tu ∧ top !! "connections" = Some co ∧
  top !! "threads" = Some th ∧
  ∃ g, top !! groupKey = Some (JObj g) ∧
       g !! "script" = Some script ∧
       g !! "warmup-requests-per-second" = Some wrps ∧
       g !! "warmup-duration" = Some wd ∧
       g !! "duration" = Some d ∧
       g !! "requests-per-second" = rps.

(** The record of the script at index [i]; [rates] is the list of the
    fixed rates, when the group has one that counts. *)
Definition record_of (tu co th : json) (scripts ws wds ds : list json)
    (rates : option (list json)) (i : nat) : gmap string json :=
  let base :=
    Wrk.base_record tu co th (default JNull (scripts !! i))
      (default JNull (ws !! i)) (default JNull (wds !! i))
      (default JNull (ds !! i)) in
  match rates with
  | Some rs => <["requests-per-second" := default JNull (rs !! i)]> base
  | None => base
  end.

(** The fixed rates that count for a group: those of a list entry that
    is truthy and long enough for [n] scripts; none when the entry is
    missing or falsy. *)
Definition rates_for (n : nat) (rps : option json) (rates : option (list json))
    : Prop :=
  match rps with
  | Some r =>
      if Json.truthy r
      then ∃ rs, r = JList rs ∧ (n ≤ length rs)%nat ∧ rates = Some rs
      else rates = None
  | None => rates = None
  end.

(** A workload whose latency group has one script and two fixed rates. *)
Definition two_rates : json :=
  JObj (list_to_map
    [ ("target-url", JStr "http://localhost:8080");
      ("connections", JInt 10); ("threads", JInt 2);
      ("latency", JObj (list_to_map
         [ ("script", JList [JStr "a.lua"]);
           ("warmup-requests-per-second", JList [JInt 100]);
           ("warmup-duration", JList [JStr "30s"]);
           ("duration", JList [JStr "60s"]);
           ("requests-per-second", JList [JInt 5; JInt 6]) ])) ]).

(** A workload with two latency scripts and a fixed rate for each, and
    the four mandatory fields of its latency group. *)
Definition two_scripts : gmap string json :=
  list_to_map
    [ ("target-url", JStr "http://localhost:8080");
      ("connections", JInt 10); ("threads", JInt 2);
      ("latency", JObj (list_to_map
         [ ("script", JList [JStr "a.lua"; JStr "b.lua"]);
           ("warmup-requests-per-second", JList [JInt 100; JInt 200]);
           ("warmup-duration", JList [JStr "30s"; JStr "20s"]);
           ("duration", JList [JStr "60s"; JStr "40s"]);
           ("requests-per-second", JList [JInt 5; JInt 6]) ])) ].

(** A workload whose latency group is written with scalars and has the
    fixed rate 0, and the same workload written with lists of length 1. *)
Definition scalar_zero_rate : json :=
  JObj (list_to_map
    [ ("target-url", JStr "http://localhost:8080");
      ("connections", JInt 10); ("threads", JInt 2);
      ("latency", JObj (list_to_map
         [ ("script", JStr "a.lua");
           ("warmup-requests-per-second", JInt 100);
           ("warmup-duration", JStr "30s");
           ("duration", JStr "60s");
           ("requests-per-second", JInt 0) ])) ]).

Definition list_zero_rate : json :=
  JObj (list_to_map
    [ ("target-url", JStr "http://localhost:8080");
      ("connections", JInt 10); ("threads", JInt 2);
      ("latency", JObj (list_to_map
         [ ("script", JList [JStr "a.lua"]);
           ("warmup-requests-per-second", JList [JInt 100]);
           ("warmup-duration", JList [JStr "30s"]);
           ("duration", JList [JStr "60s"]);
           ("requests-per-second", JList [JInt 0]) ])) ]).

(** A workload with one latency script and no fixed rate, a run of the
    tools that always reports 1000 requests per second and a 99th
    percentile of 2 ms, and the state of a suite that has run nothing. *)
Definition one_script : json :=
  JObj (list_to_map
    [ ("target-url", JStr "http://localhost:8080");
      ("connections", JInt 10); ("threads", JInt 2);
      ("latency", JObj (list_to_map
         [ ("script", JStr "a.lua");
           ("warmup-requests-per-second", JInt 1000);
           ("warmup-duration", JStr "30s");
           ("duration", JStr "60s") ])) ]).

Definition report_1000 : string := "Requests/sec: 1000.00".

Definition number_of (s : string) : outcome float :=
  if String.eqb s "1000.00" then Ok 1000%float
  else if String.eqb s "2.00" then Ok 2%float
  else Raise ValueError.

Definition nothing_run : Wrk.world := Wrk.World [] [] ∅ 1 None [] [] [].

(** The record of the script of [one_script], and the state after its
    calibration: a warmup run of wrk2 and a run of wrk, whose throughput
    is stored. *)
Definition one_record : gmap string json :=
  Wrk.base_record (JStr "http://localhost:8080") (JInt 10) (JInt 2)
    (JStr "a.lua") (JInt 1000) (JStr "30s") (JStr "60s").

Definition one_script_flags (latency : bool) : list Wrk.arg :=
  (if latency then [Wrk.Lit "--latency"] else []) ++
  [Wrk.Lit "--connections"; Wrk.Str (JInt 10);
   Wrk.Lit "--threads"; Wrk.Str (JInt 2);
   Wrk.Lit "--script"; Wrk.ScriptPath (JStr "a.lua");
   Wrk.Str (JStr "http://localhost:8080");
   Wrk.Lit "--"; Wrk.Str (JInt 2)].

Definition calibrated_1000 : Wrk.world :=
  Wrk.World
    [ (Wrk.Wrk2,
       [Wrk.Lit "--duration"; Wrk.Str (JStr "30s");
        Wrk.Lit "--rate"; Wrk.Str (JInt 1000)] ++ one_script_flags false);
      (Wrk.Wrk1,
       [Wrk.Lit "--duration"; Wrk.Str (JStr "60s")] ++ one_script_flags true) ]
    [] ∅ 1 (Some [1000%float]) [] [] [].

Abbreviation steady_calibration :=
  (Wrk.calibrateLatencyTest one_script "linux" (λ _, true)
     (λ _, Ok report_1000) (λ _, ["1000.00"]) number_of).

Abbreviation steady_latency :=
  (Wrk.testLatency one_script "linux" (λ _, true)
     (λ _, Ok report_1000) (λ _, ["1000.00"])
     (λ _, [("99.000%", "2.00", "ms")]) number_of).

End Spec.

(** * Properties *)

(** ** Binary64 rounding *)

(** The operations of [float] round to nearest, ties to even, as the
    executable specification [SpecFloat] of the standard library lays it
    down. The lemmas of this part derive, from that specification, the
    error bounds and exactness facts the properties below rest on. *)

Lemma digits2_pos_bounds (p : positive) :
  2 ^ (Z.pos (digits2_pos p) - 1) ≤ Z.pos p < 2 ^ Z.pos (digits2_pos p).
Proof.
  induction p as [p IH|p IH|]; simpl digits2_pos.
  - rewrite Pos2Z.inj_succ.
    replace (Z.succ (Z.pos (digits2_pos p)) - 1) with (Z.pos (digits2_pos p) - 1 + 1) by lia.
    rewrite Z.pow_succ_r by lia. rewrite Z.pow_add_r by lia. lia.
  - rewrite Pos2Z.inj_succ.
    replace (Z.succ (Z.pos (digits2_pos p)) - 1) with (Z.pos (digits2_pos p) - 1 + 1) by lia.
    rewrite Z.pow_succ_r by lia. rewrite Z.pow_add_r by lia. lia.
  - simpl. lia.
Qed.

Lemma digits2_pos_unique (p : positive) (d : Z) :
  2 ^ (d - 1) ≤ Z.pos p < 2 ^ d → Z.pos (digits2_pos p) = d.
Proof.
  intros [Hlo Hhi]. pose proof (digits2_pos_bounds p) as [Blo Bhi].
  destruct (Z.lt_trichotomy (Z.pos (digits2_pos p)) d) as [Hlt|[Heq|Hgt]]; [|done|].
  - assert (2 ^ Z.pos (digits2_pos p) ≤ 2 ^ (d - 1)) by (apply Z.pow_le_mono_r; lia). lia.
  - assert (0 ≤ d ∨ d < 0) as [Hd|Hd] by lia.
    + assert (2 ^ d ≤ 2 ^ (Z.pos (digits2_pos p) - 1)) by (apply Z.pow_le_mono_r; lia). lia.
    + rewrite (Z.pow_neg_r 2 d) in Hhi by lia. lia.
Qed.

Lemma iter_pos_nat {A} (f : A → A) (p : positive) (x : A) :
  SpecFloat.iter_pos f p x = Nat.iter (Pos.to_nat p) f x.
Proof.
  revert x. induction p as [p IH|p IH|]; intros x; cbn [SpecFloat.iter_pos].
  - rewrite !IH, Pos2Nat.inj_xI.
    replace (S (2 * Pos.to_nat p)) with (Pos.to_nat p + S (Pos.to_nat p))%nat by lia.
    rewrite Nat.iter_add. f_equal. by rewrite Nat.iter_succ_r.
  - rewrite !IH, Pos2Nat.inj_xO.
    replace (2 * Pos.to_nat p)%nat with (Pos.to_nat p + Pos.to_nat p)%nat by lia.
    by rewrite Nat.iter_add.
  - done.
Qed.


Lemma shr_1_located mrs N D :
  0 < D → B64.located mrs N D → B64.located (shr_1 mrs) N (2 * D).
Proof.
  intros HD [Hm HX]. destruct mrs as [m r s].
  cbn [shr_m shr_r shr_s] in Hm, HX. unfold B64.located.
  destruct m as [|[p|p|]|p]; try lia;
    try pose proof (Pos2Z.inj_xI p); try pose proof (Pos2Z.inj_xO p);
    destruct r, s; cbn [shr_1 shr_m shr_r shr_s orb Z.b2z] in *; split; lia.
Qed.

Lemma shr_1_m mrs : 0 ≤ shr_m mrs → shr_m (shr_1 mrs) = shr_m mrs / 2.
Proof.
  destruct mrs as [m r s]. cbn [shr_m]. intros Hm.
  destruct m as [|[p|p|]|p]; try lia; cbn [shr_1 shr_m]; try done.
  - apply Z.div_unique with 1; lia.
  - apply Z.div_unique with 0; lia.
Qed.

Lemma shr_iter_located (n : nat) mrs N D :
  0 < D → B64.located mrs N D →
  B64.located (Nat.iter n shr_1 mrs) N (2 ^ Z.of_nat n * D) ∧
  shr_m (Nat.iter n shr_1 mrs) = shr_m mrs / 2 ^ Z.of_nat n.
Proof.
  intros HD Hl. induction n as [|n [IH1 IH2]].
  - simpl. rewrite Z.mul_1_l, Z.div_1_r. done.
  - rewrite Nat2Z.inj_succ, Z.pow_succ_r by lia. simpl Nat.iter. split.
    + rewrite <- Z.mul_assoc. apply shr_1_located; [|done].
      assert (0 < 2 ^ Z.of_nat n) by (apply Z.pow_pos_nonneg; lia). lia.
    + rewrite shr_1_m by (apply IH1). rewrite IH2.
      rewrite Z.div_div by (try apply Z.pow_pos_nonneg; lia).
      f_equal. lia.
Qed.

Lemma shr_located mrs e n N D :
  0 < D → 0 ≤ n → B64.located mrs N D →
  B64.located (shr mrs e n).1 N (2 ^ n * D) ∧
  shr_m (shr mrs e n).1 = shr_m mrs / 2 ^ n ∧
  (shr mrs e n).2 = e + n.
Proof.
  intros HD Hn Hl. destruct n as [|p|p]; [|clear Hn|lia].
  - simpl. rewrite Z.div_1_r, Z.add_0_r.
    destruct D; try lia; done.
  - unfold shr. cbn [fst snd]. rewrite iter_pos_nat.
    destruct (shr_iter_located (Pos.to_nat p) mrs N D HD Hl) as [H1 H2].
    rewrite positive_nat_Z in H1, H2. done.
Qed.

(** Rounding to nearest moves by at most half a unit. *)
Lemma round_nearest_even_located mrs N D :
  0 < D → B64.located mrs N D →
  let R := round_nearest_even (shr_m mrs) (loc_of_shr_record mrs) in
  shr_m mrs ≤ R ≤ shr_m mrs + 1 ∧ 2 * Z.abs (R * D - N) ≤ D.
Proof.
  intros HD [Hm HX]. destruct mrs as [m r s].
  cbn [shr_m shr_r shr_s] in Hm, HX.
  destruct r, s;
    cbn [shr_m loc_of_shr_record round_nearest_even Z.b2z] in *;
    try destruct (Z.even m); lia.
Qed.

Lemma Zdigits2_bounds (m : Z) :
  0 < m → 2 ^ (Zdigits2 m - 1) ≤ m < 2 ^ Zdigits2 m.
Proof. destruct m as [|p|p]; try lia. intros _. apply digits2_pos_bounds. Qed.

Lemma Zdigits2_unique (m d : Z) :
  0 < m → 2 ^ (d - 1) ≤ m < 2 ^ d → Zdigits2 m = d.
Proof. destruct m as [|p|p]; try lia. intros _. apply digits2_pos_unique. Qed.

Lemma shr_record_of_loc_m m l : shr_m (shr_record_of_loc m l) = m.
Proof. by destruct l as [|[]]. Qed.

Lemma fexp_normal (z : Z) : -1074 ≤ z - 53 → fexp prec emax z = z - 53.
Proof. unfold fexp, SpecFloat.emin, prec, emax. lia. Qed.

Lemma shr_fexp_located m e l N D :
  0 < D → 0 < m → B64.located (shr_record_of_loc m l) N D →
  0 ≤ Zdigits2 m - 53 → -1074 ≤ e + (Zdigits2 m - 53) →
  ∃ mrs, shr_fexp prec emax m e l = (mrs, e + (Zdigits2 m - 53)) ∧
         B64.located mrs N (2 ^ (Zdigits2 m - 53) * D) ∧
         shr_m mrs = m / 2 ^ (Zdigits2 m - 53).
Proof.
  intros HD Hm Hl Hk He. unfold shr_fexp.
  rewrite fexp_normal by lia.
  replace (Zdigits2 m + e - 53 - e) with (Zdigits2 m - 53) by lia.
  destruct (shr_located (shr_record_of_loc m l) e (Zdigits2 m - 53) N D)
    as (H1 & H2 & H3); [done..|].
  rewrite shr_record_of_loc_m in H2.
  exists (shr (shr_record_of_loc m l) e (Zdigits2 m - 53)).1.
  split; [|done]. rewrite <- H3. by destruct (shr _ _ _).
Qed.

Lemma div_pow2_digits (m k : Z) :
  0 < m → 0 ≤ k → Zdigits2 m = k + 53 →
  2 ^ 52 ≤ m / 2 ^ k < 2 ^ 53.
Proof.
  intros Hm Hk Hd. pose proof (Zdigits2_bounds m Hm) as [Hlo Hhi].
  rewrite Hd in Hlo, Hhi.
  assert (0 < 2 ^ k) by (apply Z.pow_pos_nonneg; lia).
  replace (k + 53 - 1) with (52 + k) in Hlo by lia.
  replace (k + 53) with (53 + k) in Hhi by lia.
  rewrite Z.pow_add_r in Hlo, Hhi by lia. split.
  - apply Z.div_le_lower_bound; lia.
  - apply Z.div_lt_upper_bound; lia.
Qed.

(** The rounding performed by every binary64 operation, away from
    underflow and overflow: the result is a normal number within half a
    unit in the last place of the located value [N / D * 2 ^ e]. *)
Lemma binary_round_aux_located s m e l N D :
  0 < D → 0 < m → B64.located (shr_record_of_loc m l) N D →
  0 ≤ Zdigits2 m - 53 →
  -1074 ≤ e + (Zdigits2 m - 53) → e + (Zdigits2 m - 53) + 1 ≤ 971 →
  ∃ m' e',
    binary_round_aux prec emax s m e l = S754_finite s m' e' ∧
    e + (Zdigits2 m - 53) ≤ e' ≤ e + (Zdigits2 m - 53) + 1 ∧
    2 ^ 52 ≤ Z.pos m' < 2 ^ 53 ∧
    2 * Z.abs (Z.pos m' * 2 ^ (e' - e) * D - N) ≤ 2 ^ (Zdigits2 m - 53) * D.
Proof.
  intros HD Hm Hl Hk Hlo Hhi. set (k := Zdigits2 m - 53) in *.
  destruct (shr_fexp_located m e l N D) as (mrs & E1 & L1 & M1); [done..|].
  fold k in E1, L1, M1.
  assert (0 < 2 ^ k) as Hpk by (apply Z.pow_pos_nonneg; lia).
  pose proof (div_pow2_digits m k Hm Hk ltac:(unfold k; lia)) as Hm1.
  rewrite <- M1 in Hm1.
  pose proof (round_nearest_even_located mrs N (2 ^ k * D) ltac:(lia) L1)
    as [HR1 HR2].
  unfold binary_round_aux. rewrite E1.
  set (R := round_nearest_even (shr_m mrs) (loc_of_shr_record mrs)) in *.
  destruct (decide (R < 2 ^ 53)) as [Hlt|Hge].
  - assert (Zdigits2 R = 53) as HdR by (apply Zdigits2_unique; lia).
    unfold shr_fexp. rewrite HdR, fexp_normal by lia.
    replace (53 + (e + k) - 53 - (e + k)) with 0 by lia.
    cbn [shr shr_record_of_loc shr_m].
    destruct R as [|p|p] eqn:ER; try lia.
    replace (e + k <=? emax - prec) with true
      by (symmetry; apply Z.leb_le; unfold emax, prec; lia).
    exists p, (e + k). split; [done|]. split; [lia|]. split; [lia|].
    replace (e + k - e) with k by lia.
    replace (Z.pos p * 2 ^ k * D) with (Z.pos p * (2 ^ k * D)) by lia. lia.
  - assert (R = 2 ^ 53) as ER by lia.
    rewrite ER in *.
    unfold shr_fexp.
    replace (Zdigits2 (2 ^ 53)) with 54 by done.
    rewrite fexp_normal by lia.
    replace (54 + (e + k) - 53 - (e + k)) with 1 by lia.
    change (shr (shr_record_of_loc (2 ^ 53) loc_Exact) (e + k) 1)
      with ({| shr_m := 2 ^ 52; shr_r := false; shr_s := false |}, e + k + 1).
    cbn [shr_m].
    change (2 ^ 52) with (Z.pos 4503599627370496) at 1.
    cbv iota beta.
    replace (e + k + 1 <=? emax - prec) with true
      by (symmetry; apply Z.leb_le; unfold emax, prec; lia).
    exists 4503599627370496%positive, (e + k + 1).
    split; [done|]. split; [lia|]. split; [done|].
    replace (e + k + 1 - e) with (k + 1) by lia.
    rewrite Z.pow_add_r by lia.
    change (Z.pos 4503599627370496) with (2 ^ 52).
    replace (2 ^ 52 * (2 ^ k * 2 ^ 1) * D) with (2 ^ 53 * (2 ^ k * D))
      by (change (2 ^ 53) with (2 ^ 52 * 2 ^ 1); lia).
    lia.
Qed.


Lemma pos_iter_xO (p c : positive) :
  Z.pos (Pos.iter xO p c) = Z.pos p * 2 ^ Z.pos c.
Proof.
  induction c as [|c IH] using Pos.peano_ind.
  - simpl. lia.
  - rewrite Pos.iter_succ, Pos2Z.inj_xO, IH, Pos2Z.inj_succ, Z.pow_succ_r by lia.
    lia.
Qed.


Lemma normal_valid x s m e : B64.normal x s m e → valid_binary x = true.
Proof.
  intros (-> & Hm & He). unfold SpecFloat.valid_binary, bounded, canonical_mantissa.
  rewrite (digits2_pos_unique m 53) by (simpl; lia).
  rewrite fexp_normal by lia.
  apply andb_true_iff. split; [apply Z.eqb_eq; lia|].
  apply Z.leb_le. unfold emax, prec. lia.
Qed.

Lemma binary_round_aux_exact s (m : positive) e :
  2 ^ 52 ≤ Z.pos m < 2 ^ 53 → -1074 ≤ e → e + 1 ≤ 971 →
  binary_round_aux prec emax s (Z.pos m) e loc_Exact = S754_finite s m e.
Proof.
  intros Hm Hlo Hhi.
  assert (Zdigits2 (Z.pos m) = 53) as Hd by (apply Zdigits2_unique; simpl; lia).
  destruct (binary_round_aux_located s (Z.pos m) e loc_Exact (Z.pos m) 1)
    as (m' & e' & -> & He' & Hm' & Habs); try (rewrite ?Hd; lia).
  { split; simpl; lia. }
  rewrite Hd in *. change (53 - 53) with 0 in *. rewrite Z.add_0_r in *.
  assert (e' = e ∨ e' = e + 1) as [->| ->] by lia.
  - rewrite Z.sub_diag in Habs. simpl in Habs. f_equal. lia.
  - replace (e + 1 - e) with 1 in Habs by lia. simpl in Habs. lia.
Qed.

Lemma binary_normalize_exact (z : Z) :
  0 < z < 2 ^ 53 →
  ∃ m e, binary_normalize prec emax z 0 false = S754_finite false m e ∧
         2 ^ 52 ≤ Z.pos m < 2 ^ 53 ∧ -52 ≤ e ≤ 0 ∧ Z.pos m = z * 2 ^ (- e).
Proof.
  intros Hz. destruct z as [|p|p]; try lia.
  pose proof (digits2_pos_bounds p) as Hd.
  set (d := Z.pos (digits2_pos p)) in *.
  assert (1 ≤ d ≤ 53) as Hd53.
  { split; [lia|]. destruct (decide (d ≤ 53)); [done|].
    assert (2 ^ 53 ≤ 2 ^ (d - 1)) by (apply Z.pow_le_mono_r; lia). lia. }
  cbn [binary_normalize]. unfold binary_round. fold d.
  rewrite Z.add_0_r, fexp_normal by lia. unfold shl_align.
  destruct (d - 53 - 0) as [|c|c] eqn:Ec; try lia.
  - assert (d = 53) as Hd' by lia. rewrite Hd' in *.
    exists p, 0. rewrite binary_round_aux_exact by (simpl in *; lia).
    split; [done|]. split; [simpl in *; lia|]. split; [lia|]. simpl. lia.
  - assert (Z.pos c = 53 - d) as Hc by lia.
    assert (Z.pos (Pos.iter xO p c) = Z.pos p * 2 ^ (53 - d)) as Hit
      by (rewrite pos_iter_xO, Hc; done).
    assert (2 ^ 52 ≤ Z.pos (Pos.iter xO p c) < 2 ^ 53) as Hb.
    { rewrite Hit.
      assert (2 ^ 52 = 2 ^ (d - 1) * 2 ^ (53 - d)) as ->
        by (rewrite <- Z.pow_add_r by lia; f_equal; lia).
      assert (2 ^ 53 = 2 ^ d * 2 ^ (53 - d)) as ->
        by (rewrite <- Z.pow_add_r by lia; f_equal; lia).
      assert (0 < 2 ^ (53 - d)) by (apply Z.pow_pos_nonneg; lia). nia. }
    exists (Pos.iter xO p c), (d - 53).
    rewrite binary_round_aux_exact by lia.
    split; [done|]. split; [done|]. split; [lia|].
    rewrite Hit. f_equal. f_equal. lia.
Qed.

Lemma Z2F_exact (z : Z) :
  0 < z < 2 ^ 53 →
  ∃ m e, B64.normal (Prim2SF (Py.Z2F z)) false m e ∧ -52 ≤ e ≤ 0 ∧
         Z.pos m = z * 2 ^ (- e).
Proof.
  intros Hz. destruct (binary_normalize_exact z Hz) as (m & e & E & Hm & He & Hv).
  exists m, e. unfold Py.Z2F. rewrite E.
  assert (B64.normal (S754_finite false m e) false m e) as Hn
    by (split; [done|split; [done|lia]]).
  rewrite Prim2SF_SF2Prim by (eapply normal_valid; done). done.
Qed.

Lemma Zdigits2_between (m a b : Z) :
  0 ≤ a → 2 ^ a ≤ m < 2 ^ b → a + 1 ≤ Zdigits2 m ≤ b.
Proof.
  intros Ha [Hlo Hhi].
  assert (0 < 2 ^ a) by (apply Z.pow_pos_nonneg; lia).
  pose proof (Zdigits2_bounds m ltac:(lia)) as [Dlo Dhi].
  assert (0 < Zdigits2 m) by (destruct m; simpl; lia).
  split.
  - destruct (decide (a + 1 ≤ Zdigits2 m)); [done|].
    assert (2 ^ Zdigits2 m ≤ 2 ^ a) by (apply Z.pow_le_mono_r; lia). lia.
  - destruct (decide (Zdigits2 m ≤ b)); [done|].
    assert (0 ≤ b ∨ b < 0) as [Hb|Hb] by lia.
    + assert (2 ^ b ≤ 2 ^ (Zdigits2 m - 1)) by (apply Z.pow_le_mono_r; lia). lia.
    + rewrite Z.pow_neg_r in Hhi by lia. lia.
Qed.

(** Multiplication of two normal numbers whose product neither
    underflows nor overflows: the mantissa of the result, scaled to the
    exponent of the exact product, is within half a unit of the exact
    product of the mantissas. *)
Lemma mul_normal (x y : float) sx mx ex sy my ey :
  B64.normal (Prim2SF x) sx mx ex → B64.normal (Prim2SF y) sy my ey →
  -1074 ≤ ex + ey + 52 → ex + ey + 54 ≤ 971 →
  ∃ m e k,
    B64.normal (Prim2SF (x * y)) (xorb sx sy) m e ∧
    52 ≤ k ≤ 53 ∧ 2 ^ (k + 52) ≤ Z.pos mx * Z.pos my ∧
    ex + ey + k ≤ e ≤ ex + ey + k + 1 ∧
    2 * Z.abs (Z.pos m * 2 ^ (e - (ex + ey)) - Z.pos mx * Z.pos my) ≤ 2 ^ k.
Proof.
  intros (Ex & Hmx & Hex) (Ey & Hmy & Hey) Hlo Hhi.
  rewrite mul_spec, Ex, Ey. unfold SF64mul. cbn [SFmul].
  set (M := Z.pos mx * Z.pos my).
  assert (2 ^ 104 ≤ M < 2 ^ 106) as HM.
  { change (2 ^ 104) with (2 ^ 52 * 2 ^ 52).
    change (2 ^ 106) with (2 ^ 53 * 2 ^ 53). unfold M. nia. }
  pose proof (Zdigits2_between M 104 106 ltac:(lia) HM) as Hd.
  pose proof (Zdigits2_bounds M ltac:(lia)) as HdB.
  destruct (binary_round_aux_located (xorb sx sy) M (ex + ey) loc_Exact M 1)
    as (m & e & E & He & Hm & Habs); try lia.
  { split; simpl; lia. }
  exists m, e, (Zdigits2 M - 53).
  change (Z.pos (mx * my)) with M. rewrite E.
  split; [split; [done|split; [done|lia]]|].
  split; [lia|]. split.
  { replace (Zdigits2 M - 53 + 52) with (Zdigits2 M - 1) by lia. lia. }
  split; [lia|]. lia.
Qed.

Lemma new_location_located (D q r : Z) :
  0 < D → 0 ≤ q → 0 ≤ r < D →
  B64.located (shr_record_of_loc q (new_location D r)) (q * D + r) D.
Proof.
  intros HD Hq Hr. unfold new_location.
  destruct (Z.even D) eqn:Ev.
  - unfold new_location_even.
    destruct (Z.eqb_spec r 0) as [->|Hr0].
    + split; simpl; lia.
    + destruct (Z.compare_spec (2 * r) D); split; simpl; lia.
  - unfold new_location_odd.
    assert (Z.odd D = true) as Hodd by (rewrite <- Z.negb_even, Ev; done).
    apply Z.odd_spec in Hodd as [c Hc].
    destruct (Z.eqb_spec r 0) as [->|Hr0].
    + split; simpl; lia.
    + destruct (Z.compare_spec (2 * r + 1) D); split; simpl; lia.
Qed.

(** Division of two normal numbers whose quotient neither underflows
    nor overflows. The exact quotient is [N / my * 2 ^ (ex - ey - 53)]
    with [N = mx * 2 ^ 53]. *)
Lemma div_normal (x y : float) sx mx ex sy my ey :
  B64.normal (Prim2SF x) sx mx ex → B64.normal (Prim2SF y) sy my ey →
  -1074 ≤ ex - ey - 53 → ex - ey - 51 ≤ 971 →
  ∃ m e k,
    B64.normal (Prim2SF (x / y)) (xorb sx sy) m e ∧
    0 ≤ k ≤ 1 ∧ 2 ^ (k + 52) * Z.pos my ≤ Z.pos mx * 2 ^ 53 ∧
    ex - ey - 53 + k ≤ e ≤ ex - ey - 53 + k + 1 ∧
    2 * Z.abs (Z.pos m * 2 ^ (e - (ex - ey - 53)) * Z.pos my
               - Z.pos mx * 2 ^ 53) ≤ 2 ^ k * Z.pos my.
Proof.
  intros (Ex & Hmx & Hex) (Ey & Hmy & Hey) Hlo Hhi.
  rewrite div_spec, Ex, Ey. unfold SF64div. cbn [SFdiv].
  unfold SFdiv_core_binary.
  rewrite (Zdigits2_unique (Z.pos mx) 53), (Zdigits2_unique (Z.pos my) 53)
    by (simpl; lia).
  replace (53 + ex - (53 + ey)) with (ex - ey) by lia.
  rewrite fexp_normal by lia.
  rewrite Z.min_l by lia.
  replace (ex - ey - (ex - ey - 53)) with 53 by lia.
  cbv iota beta.
  rewrite Z.shiftl_mul_pow2 by lia.
  set (N := Z.pos mx * 2 ^ 53).
  pose proof (Z.div_eucl_eq N (Z.pos my) ltac:(lia)) as HN.
  pose proof (Z.mod_pos_bound N (Z.pos my) ltac:(lia)) as Hr.
  unfold Z.modulo in Hr. destruct (Z.div_eucl N (Z.pos my)) as [q r].
  assert (2 ^ 52 ≤ q < 2 ^ 54) as Hq.
  { change (2 ^ 54) with (2 * 2 ^ 53). unfold N in HN.
    change (2 ^ 53) with (2 * 2 ^ 52) in *. nia. }
  pose proof (Zdigits2_between q 52 54 ltac:(lia) Hq) as Hd.
  pose proof (Zdigits2_bounds q ltac:(lia)) as HdB.
  destruct (binary_round_aux_located (xorb sx sy) q (ex - ey - 53)
              (new_location (Z.pos my) r) N (Z.pos my))
    as (m & e & E & He & Hm & Habs); try lia.
  { rewrite HN, (Z.mul_comm (Z.pos my) q).
    apply new_location_located; lia. }
  exists m, e, (Zdigits2 q - 53). rewrite E.
  split; [split; [done|split; [done|lia]]|].
  split; [lia|]. split.
  { replace (Zdigits2 q - 53 + 52) with (Zdigits2 q - 1) by lia.
    assert (0 ≤ 2 ^ (Zdigits2 q - 1)) by (apply Z.pow_nonneg; lia). nia. }
  split; [lia|]. done.
Qed.

Lemma normal_not_infinity (x : float) s m e :
  B64.normal (Prim2SF x) s m e → is_infinity x = false.
Proof.
  intros (E & _). unfold is_infinity. rewrite FloatAxioms.eqb_spec, FloatAxioms.abs_spec, E. done.
Qed.

Lemma normal_not_zero (x : float) s m e :
  B64.normal (Prim2SF x) s m e → (x =? 0)%float = false.
Proof.
  intros (E & _). rewrite FloatAxioms.eqb_spec, E.
  change (Prim2SF 0) with (S754_zero false). by destruct s.
Qed.

Lemma float_of_int_exact (z : Z) :
  0 < z < 2 ^ 53 →
  ∃ m e, Py.float_of_int z = Ok (Py.Z2F z) ∧
         B64.normal (Prim2SF (Py.Z2F z)) false m e ∧ -52 ≤ e ≤ 0 ∧
         Z.pos m = z * 2 ^ (- e).
Proof.
  intros Hz. destruct (Z2F_exact z Hz) as (m & e & Hn & He & Hv).
  exists m, e. unfold Py.float_of_int.
  rewrite (normal_not_infinity _ _ _ _ Hn). done.
Qed.

Lemma shiftl_neg (a e : Z) : e ≤ 0 → Z.shiftl a e = a / 2 ^ (- e).
Proof.
  intros He. rewrite <- Z.shiftr_opp_r. apply Z.shiftr_div_pow2. lia.
Qed.

(** The arithmetic behind [int(n * 0.1)]: the binary64 product, rounded
    to nearest, still truncates to [n / 10]. *)
Lemma tenth_arith (n W m' A B M k : Z) :
  0 < n < 2 ^ 50 → 0 < W →
  M = n * W * 7205759403792794 →
  0 < B → 32 ≤ A → A * B = 2 ^ 56 * W →
  2 * Z.abs (m' * B - M) ≤ B →
  m' / A = n / 10.
Proof.
  intros Hn HW HM HB HA HAB Habs.
  set (q := n / 10).
  assert (10 * q ≤ n ≤ 10 * q + 9) as Hq.
  { unfold q. pose proof (Z.div_mod n 10 ltac:(lia)).
    pose proof (Z.mod_pos_bound n 10 ltac:(lia)). lia. }
  assert (10 * M = n * W * (2 ^ 56 + 4)) as HM10 by (rewrite HM; lia).
  assert (q * A ≤ m') as Hlo.
  { destruct (decide (q * A ≤ m')) as [|Hc]; [done|exfalso].
    assert (m' * B ≤ (q * A - 1) * B) by nia.
    assert (10 * (q * (A * B)) ≤ 10 * M) by (rewrite HAB, HM10; nia).
    nia. }
  assert (m' < (q + 1) * A) as Hhi.
  { destruct (decide (m' < (q + 1) * A)) as [|Hc]; [done|exfalso].
    assert ((q + 1) * (A * B) ≤ m' * B) by nia.
    assert (32 * B ≤ 2 ^ 56 * W) by nia.
    assert (W * (2 ^ 56 - 4 * n) ≤ 10 * ((q + 1) * (A * B) - M)) as H1.
    { rewrite HAB. replace (10 * ((q + 1) * (2 ^ 56 * W) - M))
        with (W * ((10 * (q + 1) - n) * 2 ^ 56 - 4 * n)) by lia.
      apply Z.mul_le_mono_nonneg_l; [lia|]. nia. }
    assert (W * (2 ^ 56 - 2 ^ 52) < W * (2 ^ 56 - 4 * n)) by
      (apply Z.mul_lt_mono_pos_l; lia).
    change (2 ^ 56) with 72057594037927936 in *.
    change (2 ^ 52) with 4503599627370496 in *. lia. }
  symmetry. apply Z.div_unique with (m' - q * A); lia.
Qed.

Lemma normal_tenth : B64.normal (Prim2SF 0.1) false 7205759403792794 (-56).
Proof. split; [done|]. split; [split; by vm_compute|lia]. Qed.

Lemma bind_ok {A B} (a : A) (f : A → outcome B) : Ok a ≫= f = f a.
Proof. done. Qed.

Lemma tailDatapointsToSkip_tenth {A} (results : list A) :
  Z.of_nat (length results) < 2 ^ 50 →
  JMeter.tailDatapointsToSkip results = Ok (Z.of_nat (length results) / 10).
Proof.
  intros Hlen. unfold JMeter.tailDatapointsToSkip.
  set (n := Z.of_nat (length results)) in *.
  destruct (decide (n = 0)) as [->|Hn0]; [by vm_compute|].
  destruct (float_of_int_exact n) as (m & e & -> & Hn & He & Hv).
  { change (2 ^ 53) with 9007199254740992. change (2 ^ 50) with 1125899906842624 in Hlen. lia. }
  rewrite bind_ok.
  assert (0 < 2 ^ (- e)) as HW by (apply Z.pow_pos_nonneg; lia).
  assert (e ≤ -3) as He3.
  { destruct (decide (e ≤ -3)); [done|exfalso].
    assert (2 ^ (- e) ≤ 2 ^ 2) by (apply Z.pow_le_mono_r; lia).
    destruct Hn as (_ & Hm & _).
    change (2 ^ 52) with 4503599627370496 in *.
    change (2 ^ 50) with 1125899906842624 in *.
    change (2 ^ 2) with 4 in *. nia. }
  destruct (mul_normal (Py.Z2F n) 0.1 _ _ _ _ _ _ Hn normal_tenth)
    as (m' & e' & k & (E & Hm' & He') & Hk & HM & Hek & Habs); [lia..|].
  unfold Py.int. rewrite E. cbn [xorb cond_Zopp]. f_equal.
  rewrite shiftl_neg by lia.
  apply (tenth_arith n (2 ^ (- e)) (Z.pos m') (2 ^ (- e'))
           (2 ^ (e' - (e + -56))) (Z.pos m * 7205759403792794) k).
  - lia.
  - done.
  - rewrite Hv. lia.
  - apply Z.pow_pos_nonneg; lia.
  - change 32 with (2 ^ 5). apply Z.pow_le_mono_r; lia.
  - rewrite <- !Z.pow_add_r by lia. f_equal. lia.
  - assert (2 ^ k ≤ 2 ^ (e' - (e + -56))) by (apply Z.pow_le_mono_r; lia).
    lia.
Qed.

(** ** computeAverage *)

Lemma frame_total (a r : positive) (σ σ' : store) :
  Spec.frame a σ σ' → r ≠ a → σ' !!! r = σ !!! r.
Proof. intros H Hr. unfold lookup_total, map_lookup_total. by rewrite H. Qed.

Lemma frame_refl a (σ : store) : Spec.frame a σ σ.
Proof. by intros r _. Qed.

Lemma frame_trans a (σ1 σ2 σ3 : store) :
  Spec.frame a σ1 σ2 → Spec.frame a σ2 σ3 → Spec.frame a σ1 σ3.
Proof. intros H1 H2 r Hr. by rewrite H2, H1. Qed.

Lemma frame_insert a (σ : store) (d : gmap string float) :
  Spec.frame a σ (<[a := d]> σ).
Proof. intros r Hr. by rewrite lookup_insert_ne. Qed.

Lemma add_entry_ok (a r : positive) (k : string) (σ : store) x y :
  (σ !!! a) !! k = Some x → (σ !!! r) !! k = Some y →
  Wrk.add_entry a r k σ = Ok (<[a := <[k := (x + y)%float]> (σ !!! a)]> σ).
Proof. intros Hx Hy. unfold Wrk.add_entry. by rewrite Hx, Hy. Qed.

(** The loop [for key, value in result.items(): average[key] += result[key]]. *)
Lemma add_entries (a r : positive) (ks : list string) (σ : store) :
  NoDup ks →
  (∀ k, k ∈ ks → is_Some ((σ !!! a) !! k) ∧ is_Some ((σ !!! r) !! k)) →
  ∃ σ', for_each (Wrk.add_entry a r) ks σ = Ok σ' ∧
        Spec.frame a σ σ' ∧
        (∀ k, k ∉ ks → (σ' !!! a) !! k = (σ !!! a) !! k) ∧
        (∀ k x y, k ∈ ks → (σ !!! a) !! k = Some x → (σ !!! r) !! k = Some y →
                  (σ' !!! a) !! k = Some (x + y)%float).
Proof.
  revert σ. induction ks as [|k ks IH]; intros σ Hnd Hks.
  - exists σ. split; [done|]. split; [apply frame_refl|].
    split; [done|]. intros k x y Hk. set_solver.
  - apply NoDup_cons in Hnd as [Hk Hnd].
    assert (k ∈ k :: ks) as Hkin by set_solver.
    destruct (Hks k Hkin) as [[x Hx] [y Hy]].
    cbn [for_each]. rewrite (add_entry_ok _ _ _ _ _ _ Hx Hy), bind_ok.
    set (σ1 := <[a := <[k := (x + y)%float]> (σ !!! a)]> σ).
    assert (σ1 !!! a = <[k := (x + y)%float]> (σ !!! a)) as Ha1
      by apply lookup_total_insert_eq.
    assert (∀ k', k' ≠ k → (σ1 !!! r) !! k' = (σ !!! r) !! k') as Hr1.
    { intros k' Hk'. destruct (decide (r = a)) as [->|Hra].
      + by rewrite Ha1, lookup_insert_ne.
      + unfold σ1. by rewrite lookup_total_insert_ne. }
    destruct (IH σ1 Hnd) as (σ' & E & Hf & Hout & Hin).
    { intros k' Hk'. assert (k' ≠ k) by (intros ->; done).
      rewrite Hr1, Ha1, lookup_insert_ne by done. apply Hks. set_solver. }
    exists σ'. split; [done|]. split.
    { eapply frame_trans; [apply frame_insert|done]. }
    split.
    + intros k' Hk'.
      assert ((k' ∉ ks) ∧ (k ≠ k')) as [? ?] by (split; set_solver).
      rewrite Hout by done. rewrite Ha1. by rewrite lookup_insert_ne.
    + intros k' x' y' Hk' Hx' Hy'.
      destruct (decide (k' = k)) as [->|Hne].
      * rewrite Hout by done. rewrite Ha1, lookup_insert_eq. congruence.
      * apply Hin; [set_solver| |].
        { by rewrite Ha1, lookup_insert_ne. }
        { by rewrite Hr1. }
Qed.

Lemma keys_of_dict (d : gmap string float) :
  NoDup (map_to_list d).*1 ∧ ∀ k, k ∈ (map_to_list d).*1 ↔ k ∈ dom d.
Proof.
  split; [apply NoDup_fst_map_to_list|].
  intros k. rewrite elem_of_dom. split.
  - intros [[k' v] [-> Hin]]%list_elem_of_fmap.
    apply elem_of_map_to_list in Hin. eauto.
  - intros [v Hv]. apply list_elem_of_fmap. exists (k, v).
    split; [done|]. by apply elem_of_map_to_list.
Qed.

Lemma total_snoc σ a k rest r x :
  Spec.total σ a k (rest ++ [r]) x =
  (Spec.total σ a k rest x +
   (if decide (r = a) then Spec.total σ a k rest x
    else default 0 ((σ !!! r) !! k)))%float.
Proof. unfold Spec.total. by rewrite foldl_app. Qed.

Lemma accumulate_same (a r : positive) (K : gset string) (σ : store) :
  dom (σ !!! r) = K →
  Wrk.accumulate a K r σ
  = for_each (Wrk.add_entry a r) (map_to_list (σ !!! r)).*1 σ.
Proof. intros <-. unfold Wrk.accumulate. by rewrite decide_False by tauto. Qed.

Lemma accumulate_mismatch (a r : positive) (K : gset string) (σ : store) :
  dom (σ !!! r) ≠ K →
  Wrk.accumulate a K r σ = Abort (KeySetMismatch K (dom (σ !!! r))).
Proof. intros H. unfold Wrk.accumulate. by rewrite decide_True by done. Qed.

(** The loop [for i in range(1, count)] when the key sets agree. *)
Lemma accumulate_all (a : positive) (σ0 : store) (rest done_ : list positive)
    (σ : store) :
  Forall (λ r, dom (σ0 !!! r) = dom (σ0 !!! a)) rest →
  Spec.frame a σ0 σ →
  dom (σ !!! a) = dom (σ0 !!! a) →
  (∀ k x, (σ0 !!! a) !! k = Some x →
          (σ !!! a) !! k = Some (Spec.total σ0 a k done_ x)) →
  ∃ σ', for_each (Wrk.accumulate a (dom (σ0 !!! a))) rest σ = Ok σ' ∧
        Spec.frame a σ0 σ' ∧
        dom (σ' !!! a) = dom (σ0 !!! a) ∧
        ∀ k x, (σ0 !!! a) !! k = Some x →
               (σ' !!! a) !! k = Some (Spec.total σ0 a k (done_ ++ rest) x).
Proof.
  revert done_ σ. induction rest as [|r rest IH]; intros done_ σ Hall Hf Hdom Hv.
  - exists σ. rewrite app_nil_r. done.
  - apply Forall_cons in Hall as [Hr Hall].
    assert (dom (σ !!! r) = dom (σ0 !!! a)) as Hdr.
    { destruct (decide (r = a)) as [->|Hne]; [done|].
      by rewrite (frame_total a r σ0 σ). }
    cbn [for_each]. rewrite accumulate_same by done.
    destruct (keys_of_dict (σ !!! r)) as [Hnd Hks].
    destruct (add_entries a r (map_to_list (σ !!! r)).*1 σ Hnd)
      as (σ1 & -> & Hf1 & Hout & Hin).
    { intros k Hk. apply Hks in Hk. rewrite <- !elem_of_dom.
      by rewrite Hdom, <- Hdr. }
    rewrite bind_ok.
    assert (∀ k x, (σ0 !!! a) !! k = Some x →
                   (σ1 !!! a) !! k
                   = Some (Spec.total σ0 a k (done_ ++ [r]) x)) as Hv1.
    { intros k x Hx. rewrite total_snoc.
      assert (k ∈ dom (σ !!! r)) as Hkr.
      { rewrite Hdr. apply elem_of_dom. eauto. }
      pose proof Hkr as [y Hy]%elem_of_dom.
      rewrite (Hin k _ y (proj2 (Hks k) Hkr) (Hv k x Hx) Hy).
      do 2 f_equal. destruct (decide (r = a)) as [->|Hne].
      - rewrite (Hv k x Hx) in Hy. congruence.
      - rewrite (frame_total a r σ0 σ) in Hy by done. by rewrite Hy. }
    destruct (IH (done_ ++ [r]) σ1 Hall) as (σ' & E & Hf' & Hdom' & Hv').
    + eapply frame_trans; done.
    + apply set_eq. intros k. rewrite <- Hdom, !elem_of_dom.
      destruct (decide (k ∈ (map_to_list (σ !!! r)).*1)) as [Hk|Hk].
      * apply Hks in Hk. rewrite Hdr, <- Hdom in Hk.
        pose proof Hk as [x Hx]%elem_of_dom.
        assert (k ∈ dom (σ !!! r)) as [y Hy]%elem_of_dom
          by (rewrite Hdr, <- Hdom; apply elem_of_dom; eauto).
        rewrite (Hin k x y) by (try apply Hks; try apply elem_of_dom; eauto).
        rewrite Hx. split; eauto.
      * by rewrite Hout.
    + done.
    + exists σ'. rewrite <- app_assoc in Hv'. done.
Qed.

Lemma div_count_ok (count : nat) (x : float) :
  0 < Z.of_nat count < 2 ^ 53 →
  Wrk.div_count count x = Ok (x / Py.Z2F (Z.of_nat count))%float.
Proof.
  intros Hc. unfold Wrk.div_count.
  destruct (float_of_int_exact _ Hc) as (m & e & -> & Hn & _).
  rewrite bind_ok. unfold Py.div.
  by rewrite (normal_not_zero _ _ _ _ Hn).
Qed.

Lemma div_entry_ok (a : positive) (count : nat) (k : string) (v : float)
    (σ : store) :
  0 < Z.of_nat count < 2 ^ 53 →
  Wrk.div_entry a count (k, v) σ
  = Ok (<[a := <[k := (v / Py.Z2F (Z.of_nat count))%float]> (σ !!! a)]> σ).
Proof. intros Hc. unfold Wrk.div_entry. cbn [fst snd]. by rewrite div_count_ok. Qed.

(** The loop [for key, value in average.items(): average[key] = value / count]. *)
Lemma div_entries (a : positive) (count : nat)
    (items : list (string * float)) (σ : store) :
  0 < Z.of_nat count < 2 ^ 53 →
  NoDup items.*1 →
  ∃ σ', for_each (Wrk.div_entry a count) items σ = Ok σ' ∧
        Spec.frame a σ σ' ∧
        (∀ k, k ∉ items.*1 → (σ' !!! a) !! k = (σ !!! a) !! k) ∧
        (∀ k v, (k, v) ∈ items →
                (σ' !!! a) !! k = Some (v / Py.Z2F (Z.of_nat count))%float).
Proof.
  intros Hc. revert σ. induction items as [|[k v] items IH]; intros σ Hnd.
  - exists σ. split; [done|]. split; [apply frame_refl|].
    split; [done|]. intros k v Hin. set_solver.
  - cbn [fmap list_fmap fst] in Hnd. apply NoDup_cons in Hnd as [Hk Hnd].
    cbn [for_each]. rewrite div_entry_ok, bind_ok by done.
    set (q := (v / Py.Z2F (Z.of_nat count))%float).
    set (σ1 := <[a := <[k := q]> (σ !!! a)]> σ).
    assert (σ1 !!! a = <[k := q]> (σ !!! a)) as Ha1
      by apply lookup_total_insert_eq.
    destruct (IH σ1 Hnd) as (σ' & E & Hf & Hout & Hin).
    exists σ'. split; [done|]. split.
    { eapply frame_trans; [apply frame_insert|done]. }
    split.
    + intros k' Hk'. cbn [fmap list_fmap fst] in Hk'.
      assert ((k' ∉ items.*1) ∧ (k ≠ k')) as [? ?] by (split; set_solver).
      rewrite Hout by done. rewrite Ha1. by rewrite lookup_insert_ne.
    + intros k' v' [Heq|Hin']%elem_of_cons.
      * injection Heq as -> ->. rewrite Hout by done.
        rewrite Ha1. by rewrite lookup_insert_eq.
      * by apply Hin.
Qed.

Lemma items_of_dict (d : gmap string float) (k : string) :
  (k ∉ (map_to_list d).*1 → d !! k = None) ∧
  (∀ v, d !! k = Some v → (k, v) ∈ map_to_list d).
Proof.
  split.
  - intros Hk. apply not_elem_of_dom. by rewrite <- (proj2 (keys_of_dict d)).
  - intros v Hv. by apply elem_of_map_to_list.
Qed.

(** [computeAverage] on two or more results with one key set: it
    returns its first argument, changes no other dictionary and leaves in
    the first, under every key, the accumulated total divided by the
    number of results. *)
Lemma computeAverage_closed (a : positive) (rest : list positive) (σ : store) :
  rest ≠ [] →
  Z.of_nat (S (length rest)) < 2 ^ 53 →
  Forall (λ r, dom (σ !!! r) = dom (σ !!! a)) rest →
  ∃ σ', Wrk.computeAverage (a :: rest) σ = Ok (a, σ') ∧
        Spec.frame a σ σ' ∧
        dom (σ' !!! a) = dom (σ !!! a) ∧
        ∀ k x, (σ !!! a) !! k = Some x →
               (σ' !!! a) !! k
               = Some (Spec.total σ a k rest x
                       / Py.Z2F (Z.of_nat (S (length rest))))%float.
Proof.
  intros Hne Hlen Hall.
  destruct (accumulate_all a σ rest [] σ Hall (frame_refl a σ) eq_refl)
    as (σ1 & E1 & Hf1 & Hdom1 & Hv1); [done|].
  destruct (div_entries a (S (length rest)) (map_to_list (σ1 !!! a)) σ1)
    as (σ2 & E2 & Hf2 & Hout2 & Hin2);
    [lia|apply NoDup_fst_map_to_list|].
  exists σ2. split.
  { unfold Wrk.computeAverage. destruct rest as [|r rest']; [done|].
    cbv zeta. rewrite E1, bind_ok.
    change (length (a :: r :: rest')) with (S (length (r :: rest'))).
    by rewrite E2. }
  split; [eapply frame_trans; done|]. split.
  - rewrite <- Hdom1. apply set_eq. intros k. rewrite !elem_of_dom.
    destruct ((σ1 !!! a) !! k) as [v|] eqn:Ev.
    + rewrite (Hin2 k v) by (by apply items_of_dict). split; eauto.
    + rewrite Hout2, Ev; [done|].
      intros Hk. apply keys_of_dict, elem_of_dom in Hk as [? ?]. congruence.
  - intros k x Hx. apply Hin2. apply items_of_dict. by apply Hv1.
Qed.

(** One pass of the accumulation loop keeps the key set of the average
    and the other dictionaries. *)
Lemma accumulate_step (a r : positive) (σ : store) :
  dom (σ !!! r) = dom (σ !!! a) →
  ∃ σ', Wrk.accumulate a (dom (σ !!! a)) r σ = Ok σ' ∧
        Spec.frame a σ σ' ∧ dom (σ' !!! a) = dom (σ !!! a).
Proof.
  intros Hr.
  destruct (accumulate_all a σ [r] [] σ) as (σ' & E & Hf & Hd & _);
    [by constructor|apply frame_refl|done|done|].
  exists σ'. cbn [for_each] in E.
  destruct (Wrk.accumulate a (dom (σ !!! a)) r σ) as [σ1| |]; [|done..].
  rewrite bind_ok in E. cbn [for_each] in E. injection E as ->. done.
Qed.

(** The loop [for i in range(1, count)] when some key set differs. *)
Lemma accumulate_some_mismatch (a : positive) (σ0 : store)
    (rest : list positive) (σ : store) :
  Exists (λ r, dom (σ0 !!! r) ≠ dom (σ0 !!! a)) rest →
  Spec.frame a σ0 σ → dom (σ !!! a) = dom (σ0 !!! a) →
  ∃ K', for_each (Wrk.accumulate a (dom (σ0 !!! a))) rest σ
        = Abort (KeySetMismatch (dom (σ0 !!! a)) K') ∧
        K' ≠ dom (σ0 !!! a).
Proof.
  revert σ. induction rest as [|r rest IH]; intros σ Hex Hf Hdom.
  - by apply Exists_nil in Hex.
  - cbn [for_each].
    destruct (decide (dom (σ0 !!! r) = dom (σ0 !!! a))) as [Heq|Hne].
    + apply Exists_cons in Hex as [?|Hex]; [done|].
      assert (dom (σ !!! r) = dom (σ !!! a)) as Hr.
      { destruct (decide (r = a)) as [->|?]; [done|].
        by rewrite (frame_total a r σ0 σ), Hdom. }
      destruct (accumulate_step a r σ Hr) as (σ1 & E & Hf1 & Hd1).
      rewrite <- Hdom, E, bind_ok, Hdom.
      apply IH; [done|eapply frame_trans; done|congruence].
    + assert (r ≠ a) by (intros ->; done).
      rewrite accumulate_mismatch by (by rewrite (frame_total a r σ0 σ)).
      eexists. split; [done|]. by rewrite (frame_total a r σ0 σ).
Qed.

Lemma total_no_alias σ a k rest x :
  a ∉ rest →
  Spec.total σ a k rest x = foldl PrimFloat.add x (Spec.column σ k rest).
Proof.
  unfold Spec.total, Spec.column. revert x.
  induction rest as [|r rest IH]; intros x Ha; [done|].
  cbn [foldl fmap list_fmap]. rewrite decide_False by set_solver.
  apply IH. set_solver.
Qed.

(** C10: on two or more results with one key set, [computeAverage]
    returns its first argument and updates that dictionary in place: no
    other dictionary changes, and under every key the first dictionary
    then holds the accumulated total divided by the number of results
    instead of its original value. Whoever holds the first dictionary
    under another name reads the new values. *)
Theorem computeAverage_in_place (a : positive) (rest : list positive)
    (σ : store) :
  rest ≠ [] →
  Z.of_nat (S (length rest)) < 2 ^ 53 →
  Forall (λ r, dom (σ !!! r) = dom (σ !!! a)) rest →
  ∃ σ', Wrk.computeAverage (a :: rest) σ = Ok (a, σ') ∧
        Spec.frame a σ σ' ∧
        dom (σ' !!! a) = dom (σ !!! a) ∧
        (∀ k x, (σ !!! a) !! k = Some x →
                (σ' !!! a) !! k
                = Some (Spec.total σ a k rest x
                        / Py.Z2F (Z.of_nat (S (length rest))))%float) ∧
        (a ∉ rest →
         ∀ k, k ∈ dom (σ !!! a) →
              (σ' !!! a) !! k
              = Some (Spec.fmean (Spec.column σ k (a :: rest)))).
Proof.
  intros Hne Hlen Hall.
  destruct (computeAverage_closed a rest σ Hne Hlen Hall)
    as (σ' & E & Hf & Hd & Hv).
  exists σ'. do 4 (split; [done|]).
  intros Ha k [x Hx]%elem_of_dom. rewrite (Hv k x Hx).
  rewrite total_no_alias by done. destruct rest as [|r rest']; [done|].
  cbn [Spec.column fmap list_fmap Spec.fmean]. rewrite Hx. cbn [default].
  do 3 f_equal. cbn [length]. by rewrite !length_fmap.
Qed.

Lemma computeAverage_in_place_witness :
  ∃ σ', Wrk.computeAverage [1; 2]%positive Spec.two_results
        = Ok (1%positive, σ') ∧
        (σ' !!! 1%positive) !! "throughput" = Some 2000%float ∧
        (σ' !!! 2%positive) !! "throughput" = Some 3000%float.
Proof.
  destruct (computeAverage_in_place 1%positive [2%positive] Spec.two_results)
    as (σ' & E & Hf & _ & Hv & _).
  - done.
  - by vm_compute.
  - repeat constructor.
  - exists σ'. split; [exact E|]. split.
    + exact (Hv "throughput" 1000%float eq_refl).
    + rewrite (frame_total _ _ _ _ Hf); done.
Defined.

Lemma float_neq (x y : float) : Prim2SF x ≠ Prim2SF y → x ≠ y.
Proof. intros H ->. done. Qed.

(** C4, as stated, fails: the average of three results that all hold
    throughput 0.1 holds 0.10000000000000002, the rounded sum divided by
    three. *)
Lemma average_of_identical_counterexample :
  ∃ σ', Wrk.computeAverage [1; 2; 3]%positive Spec.three_tenths
        = Ok (1%positive, σ') ∧
        Forall (λ r, Spec.three_tenths !!! r
                     = ({[ "throughput" := 0.1%float ]} : gmap string float))
          [1; 2; 3]%positive ∧
        (σ' !!! 1%positive) !! "throughput"
        = Some ((0.1 + 0.1 + 0.1) / 3)%float ∧
        ((0.1 + 0.1 + 0.1) / 3)%float ≠ 0.1%float.
Proof.
  destruct (computeAverage_closed 1%positive [2; 3]%positive Spec.three_tenths)
    as (σ' & E & _ & _ & Hv); [done|by vm_compute|repeat constructor|].
  exists σ'. split; [exact E|]. split; [repeat constructor|]. split.
  - exact (Hv "throughput" 0.1%float eq_refl).
  - apply float_neq. by vm_compute.
Qed.

Lemma column_identical (σ : store) (d : gmap string float) k x
    (results : list positive) :
  Forall (λ r, σ !!! r = d) results → d !! k = Some x →
  Spec.column σ k results = replicate (length results) x.
Proof.
  intros Hall Hx. induction Hall as [|r rest Hr _ IH]; [done|].
  cbn [Spec.column fmap list_fmap length replicate].
  rewrite Hr, Hx. cbn [default]. f_equal. exact IH.
Qed.

(** C4, amended: the average of N >= 1 results that hold the same values
    in N different dictionaries has the same keys, and under each key the
    binary64 mean of N copies of the value: the value itself for N = 1
    (the result is returned untouched), and otherwise the sum
    [x + x + ... + x], rounded at each addition, divided by N. *)
Theorem average_of_identical (results : list positive) (σ : store)
    (d : gmap string float) :
  results ≠ [] → NoDup results →
  Z.of_nat (length results) < 2 ^ 53 →
  Forall (λ r, σ !!! r = d) results →
  ∃ a σ', head results = Some a ∧
          Wrk.computeAverage results σ = Ok (a, σ') ∧
          Spec.frame a σ σ' ∧
          (length results = 1%nat → σ' = σ) ∧
          dom (σ' !!! a) = dom d ∧
          ∀ k x, d !! k = Some x →
                 (σ' !!! a) !! k
                 = Some (Spec.fmean (replicate (length results) x)).
Proof.
  intros Hne Hnd Hlen Hall. destruct results as [|a rest]; [done|].
  pose proof Hall as [Ha Hrest]%Forall_cons.
  destruct rest as [|r rest'].
  - exists a, σ. split; [done|]. split; [done|]. split; [apply frame_refl|].
    split; [done|]. split; [by rewrite Ha|].
    intros k x Hx. cbn. by rewrite Ha.
  - destruct (computeAverage_closed a (r :: rest') σ)
      as (σ' & E & Hf & Hd & Hv); [done|done| |].
    { eapply Forall_impl; [exact Hrest|]. cbn. intros r' ->. by rewrite Ha. }
    exists a, σ'. split; [done|]. split; [done|]. split; [done|].
    split; [done|]. split; [by rewrite Hd, Ha|].
    intros k x Hx. rewrite (Hv k x) by (by rewrite Ha).
    apply NoDup_cons in Hnd as [Hnotin _].
    rewrite total_no_alias by done.
    rewrite (column_identical σ d k x (r :: rest') Hrest Hx).
    cbn [length replicate Spec.fmean]. rewrite length_replicate. done.
Qed.

Lemma average_of_identical_witness :
  ∃ a σ', Wrk.computeAverage [1; 2; 3]%positive Spec.three_tenths
          = Ok (a, σ') ∧
          (σ' !!! a) !! "throughput"
          = Some (Spec.fmean (replicate 3 0.1%float)).
Proof.
  destruct (average_of_identical [1; 2; 3]%positive Spec.three_tenths
              {[ "throughput" := 0.1%float ]})
    as (a & σ' & _ & E & _ & _ & _ & Hv).
  - done.
  - repeat constructor; set_solver.
  - by vm_compute.
  - repeat constructor.
  - exists a, σ'. split; [exact E|]. exact (Hv "throughput" 0.1%float eq_refl).
Defined.

(** ** Trimming the trailing datapoints *)

Lemma trimTrailing_take {A} (results : list A) :
  Z.of_nat (length results) < 2 ^ 50 →
  JMeter.trimTrailing results
  = Ok (take (length results - length results / 10) results).
Proof.
  intros Hlen. unfold JMeter.trimTrailing.
  rewrite tailDatapointsToSkip_tenth, bind_ok by done.
  unfold JMeter.slice_to.
  assert (Z.of_nat (length results) / 10 = Z.of_nat (length results / 10))
    as -> by (by rewrite Nat2Z.inj_div).
  pose proof (Nat.Div0.div_le_upper_bound (length results) 10 (length results) ltac:(lia)).
  destruct (Z.ltb_spec (Z.of_nat (length results) - Z.of_nat (length results / 10)) 0);
    [lia|].
  do 2 f_equal. lia.
Qed.

(** C9: the trimming of [BaseJMeterBenchmarkSuite.run] drops exactly the
    last [floor(len / 10)] elements and keeps the others in order (for
    every sequence of fewer than 2^50 elements). *)
Theorem trimTrailing_drops_last_tenth {A} (results : list A) :
  Z.of_nat (length results) < 2 ^ 50 →
  ∃ kept dropped,
    JMeter.trimTrailing results = Ok kept ∧
    results = kept ++ dropped ∧
    length dropped = (length results / 10)%nat.
Proof.
  intros Hlen.
  exists (take (length results - length results / 10) results),
         (drop (length results - length results / 10) results).
  split; [by apply trimTrailing_take|].
  split; [by rewrite take_drop|].
  rewrite length_drop.
  pose proof (Nat.Div0.div_le_upper_bound (length results) 10 (length results) ltac:(lia)).
  lia.
Qed.

Lemma trimTrailing_drops_last_tenth_witness :
  Z.of_nat (length (seq 0 100)) < 2 ^ 50 ∧
  ∃ kept dropped,
    JMeter.trimTrailing (seq 0 100) = Ok kept ∧
    seq 0 100 = kept ++ dropped ∧
    length dropped = (length (seq 0 100) / 10)%nat.
Proof.
  assert (Z.of_nat (length (seq 0 100)) < 2 ^ 50) as H by (by vm_compute).
  split; [exact H|]. exact (trimTrailing_drops_last_tenth (seq 0 100) H).
Defined.

(** A sequence of 100 elements loses its last 10, one of 5 loses none. *)
Lemma trimTrailing_100 {A} (results : list A) :
  length results = 100%nat → JMeter.trimTrailing results = Ok (take 90 results).
Proof.
  intros H. rewrite trimTrailing_take by (rewrite H; by vm_compute).
  by rewrite H.
Qed.

Lemma trimTrailing_5 {A} (results : list A) :
  length results = 5%nat → JMeter.trimTrailing results = Ok results.
Proof.
  intros H. rewrite trimTrailing_take by (rewrite H; by vm_compute).
  rewrite H. change (5 - 5 / 10)%nat with 5%nat. rewrite <- H.
  by rewrite firstn_all.
Qed.

(** ** The derived metric ops-per-GB-second *)

Lemma last_named_cons name d (datapoints : list (gmap string json)) :
  Spec.last_named name (d :: datapoints)
  = match Spec.last_named name datapoints with
    | Some y => Some y
    | None => if Spec.named name d then Some d else None
    end.
Proof.
  unfold Spec.last_named. destruct (Spec.named name d) eqn:E.
  - rewrite filter_cons_True by done. apply last_cons.
  - rewrite filter_cons_False by (by rewrite E). by destruct (last _).
Qed.

Lemma last_named_named name (datapoints : list (gmap string json)) d :
  Spec.last_named name datapoints = Some d → Spec.named name d = true.
Proof.
  unfold Spec.last_named. intros H. apply last_Some_elem_of in H.
  by apply list_elem_of_filter in H as [H _].
Qed.

Lemma last_named_absent name (datapoints : list (gmap string json)) :
  Forall (λ d, Spec.named name d = false) datapoints →
  Spec.last_named name datapoints = None.
Proof.
  intros H. induction H as [|d l Hd _ IH]; [done|].
  by rewrite last_named_cons, IH, Hd.
Qed.

Lemma scan_ok (d : gmap string json) v t r :
  d !! "metric.name" = Some v →
  Microservice.scan d (t, r)
  = Ok (if Json.is_str "peak-throughput" v then Some d else t,
        if Json.is_str "max-rss" v then Some d else r).
Proof. intros Hv. unfold Microservice.scan, Microservice.get. by rewrite Hv. Qed.

(** The scan of the batch keeps the last datapoint of each name. *)
Lemma scan_all (datapoints : list (gmap string json)) t r :
  Forall (λ d, is_Some (d !! "metric.name")) datapoints →
  for_each Microservice.scan datapoints (t, r)
  = Ok (from_option Some t (Spec.last_named "peak-throughput" datapoints),
        from_option Some r (Spec.last_named "max-rss" datapoints)).
Proof.
  intros H. revert t r. induction H as [|d l [v Hv] _ IH]; intros t r; [done|].
  cbn [for_each]. rewrite (scan_ok d v t r Hv), bind_ok, IH, !last_named_cons.
  unfold Spec.named. rewrite Hv.
  by destruct (Spec.last_named "peak-throughput" l),
              (Spec.last_named "max-rss" l),
              (Json.is_str "peak-throughput" v), (Json.is_str "max-rss" v).
Qed.

Lemma named_nonempty name (d : gmap string json) :
  Spec.named name d = true → bool_decide (d = ∅) = false.
Proof.
  unfold Spec.named. intros H. apply bool_decide_eq_false. intros ->.
  by rewrite lookup_empty in H.
Qed.

Lemma convert_metric_ok fos table (d : gmap string json) v x u toUnit :
  d !! "metric.value" = Some v → Json.to_float fos v = Ok x →
  d !! "metric.unit" = Some (JStr u) →
  Microservice.convert_metric fos table d toUnit = convertValue table x u toUnit.
Proof.
  intros Hv Hx Hu. unfold Microservice.convert_metric, Microservice.get.
  by rewrite Hv, bind_ok, Hx, bind_ok, Hu.
Qed.

Lemma convert_1000_ops :
  convertValue tputUnitTable 1000 "op/s" "op/s" = Ok 1000.0000000000001%float.
Proof. vm_compute. reflexivity. Qed.

Lemma convert_2_GB : convertValue memUnitTable 2 "GB" "GB" = Ok 2%float.
Proof. vm_compute. reflexivity. Qed.

Lemma div_1000_2 :
  Py.div 1000.0000000000001 2 = Ok 500.00000000000006%float.
Proof. vm_compute. reflexivity. Qed.

(** The datapoint [computePeakThroughputRSS] derives from [tput], with
    the value [v]. *)
Lemma derived_from_peak_1000 :
  Microservice.computePeakThroughputRSS (λ _, Raise ValueError)
    [Spec.peak_1000; Spec.rss_2GB]
  = Ok (Some (<["metric.better" := JStr "higher"]>
               (<["metric.unit" := JStr "op/GB*s"]>
                 (<["metric.value" := JFloat 500.00000000000006]>
                   (<["metric.name" := JStr "ops-per-GB-second"]>
                     Spec.peak_1000))))).
Proof. vm_compute. reflexivity. Qed.

(** C8, as stated, fails: for a peak throughput of 1000 op/s and a
    maximal resident set size of 2 GB the derived value is
    500.00000000000006, not 500: the factor of op/s is the rounded
    quotient 1.0/10^9, and multiplying and dividing by it does not give
    1000 back. *)
Lemma ops_per_GB_second_counterexample :
  ∃ d, Microservice.computePeakThroughputRSS (λ _, Raise ValueError)
         [Spec.peak_1000; Spec.rss_2GB] = Ok (Some d) ∧
       d !! "metric.name" = Some (JStr "ops-per-GB-second") ∧
       d !! "metric.value" = Some (JFloat 500.00000000000006) ∧
       500.00000000000006%float ≠ 500%float.
Proof.
  eexists. split; [exact derived_from_peak_1000|].
  split; [vm_compute; reflexivity|]. split; [vm_compute; reflexivity|].
  apply float_neq. vm_compute. discriminate.
Qed.

(** C8, amended: a batch without a datapoint named peak-throughput, or
    without one named max-rss, yields nothing, and that is no error; a batch
    whose (last) peak-throughput datapoint holds 1000 op/s and whose (last)
    max-rss datapoint holds 2 GB yields a copy of the former named
    ops-per-GB-second, with better = higher, unit op/GB*s and the value
    500.00000000000006 (500 up to the rounding of binary64). *)
Theorem computePeakThroughputRSS_spec (float_of_string : string → outcome float)
    (datapoints : list (gmap string json)) :
  Forall (λ d, is_Some (d !! "metric.name")) datapoints →
  (Forall (λ d, Spec.named "peak-throughput" d = false) datapoints ∨
   Forall (λ d, Spec.named "max-rss" d = false) datapoints →
   Microservice.computePeakThroughputRSS float_of_string datapoints = Ok None) ∧
  (∀ tput rss vt vr,
     Spec.last_named "peak-throughput" datapoints = Some tput →
     Spec.last_named "max-rss" datapoints = Some rss →
     tput !! "metric.value" = Some vt →
     Json.to_float float_of_string vt = Ok 1000%float →
     tput !! "metric.unit" = Some (JStr "op/s") →
     rss !! "metric.value" = Some vr →
     Json.to_float float_of_string vr = Ok 2%float →
     rss !! "metric.unit" = Some (JStr "GB") →
     Microservice.computePeakThroughputRSS float_of_string datapoints
     = Ok (Some (<["metric.better" := JStr "higher"]>
                   (<["metric.unit" := JStr "op/GB*s"]>
                     (<["metric.value" := JFloat 500.00000000000006]>
                       (<["metric.name" := JStr "ops-per-GB-second"]>
                         tput)))))).
Proof.
  intros Hnames. split.
  - intros Habs. unfold Microservice.computePeakThroughputRSS.
    rewrite scan_all, bind_ok by done.
    destruct Habs as [H|H]; rewrite (last_named_absent _ _ H);
      cbn [from_option].
    + done.
    + by destruct (Spec.last_named "peak-throughput" datapoints).
  - intros tput rss vt vr Ht Hr Hvt Hft Hut Hvr Hfr Hur.
    unfold Microservice.computePeakThroughputRSS.
    rewrite scan_all, bind_ok, Ht, Hr by done. cbn [from_option].
    rewrite (named_nonempty _ _ (last_named_named _ _ _ Ht)),
            (named_nonempty _ _ (last_named_named _ _ _ Hr)).
    cbn [orb].
    rewrite (convert_metric_ok _ _ _ _ _ _ _ Hvt Hft Hut), convert_1000_ops,
            bind_ok.
    rewrite (convert_metric_ok _ _ _ _ _ _ _ Hvr Hfr Hur), convert_2_GB,
            bind_ok.
    by rewrite div_1000_2, bind_ok.
Qed.

Lemma computePeakThroughputRSS_spec_witness :
  Forall (λ d : gmap string json, is_Some (d !! "metric.name"))
    [Spec.peak_1000; Spec.rss_2GB] ∧
  Microservice.computePeakThroughputRSS (λ _, Raise ValueError)
    [Spec.peak_1000; Spec.rss_2GB]
  = Ok (Some (<["metric.better" := JStr "higher"]>
               (<["metric.unit" := JStr "op/GB*s"]>
                 (<["metric.value" := JFloat 500.00000000000006]>
                   (<["metric.name" := JStr "ops-per-GB-second"]>
                     Spec.peak_1000))))).
Proof.
  assert (Forall (λ d : gmap string json, is_Some (d !! "metric.name"))
            [Spec.peak_1000; Spec.rss_2GB]) as H
    by (repeat (constructor; [by eexists|]); constructor).
  split; [exact H|].
  apply (proj2 (computePeakThroughputRSS_spec (λ _, Raise ValueError)
                  [Spec.peak_1000; Spec.rss_2GB] H)
           Spec.peak_1000 Spec.rss_2GB (JFloat 1000) (JInt 2));
    vm_compute; reflexivity.
Defined.

(** ** The port probe *)

Lemma scan_connections_true (p : Z) (conns : list Microservice.sconn) :
  Microservice.scan_connections p conns = Ok true ↔
  ∃ before c after a,
    conns = before ++ c :: after ∧
    Microservice.laddr c = Some a ∧ Microservice.port a = p ∧
    Forall (λ b, is_Some (Microservice.laddr b)) before.
Proof.
  induction conns as [|c conns IH]; cbn [Microservice.scan_connections].
  - split; [done|]. intros (b & ? & ? & ? & H & _). by destruct b.
  - destruct (Microservice.laddr c) as [a|] eqn:Ea.
    + destruct (Z.eqb_spec (Microservice.port a) p) as [Hp|Hp].
      * split; [|done]. intros _. exists [], c, conns, a. done.
      * rewrite IH. split.
        -- intros (b & c' & af & a' & -> & Hl & Hp' & Hb).
           exists (c :: b), c', af, a'. split; [done|].
           do 2 (split; [done|]). constructor; [by rewrite Ea|done].
        -- intros ([|c0 b] & c' & af & a' & H & Hl & Hp' & Hb).
           { injection H as <- <-. congruence. }
           injection H as <- ->. apply Forall_cons in Hb as [_ Hb].
           by exists b, c', af, a'.
    + split; [done|].
      intros ([|c0 b] & c' & af & a' & H & Hl & Hp' & Hb).
      * injection H as <- <-. congruence.
      * injection H as <- ->. apply Forall_cons in Hb as [[? Hc] _].
        congruence.
Qed.

(** The test the probe applies to a process, on the sockets it lists. *)
Lemma has_port_iff (p : Z) (proc : Microservice.process) :
  Microservice.has_port p proc = true ↔ Spec.on_port p proc.
Proof.
  unfold Microservice.has_port, Spec.on_port.
  destruct (Microservice.connections proc) as [conns| |] eqn:E.
  - rewrite bind_ok.
    destruct (Microservice.scan_connections p conns) as [[]| |] eqn:Es.
    + split; [intros _|done]. apply scan_connections_true in Es
        as (b & c & af & a & -> & H). by exists b, c, af, a.
    + split; [done|]. intros (b & c & af & a & [= ->] & H).
      assert (Microservice.scan_connections p (b ++ c :: af) = Ok true)
        as Es' by (apply scan_connections_true; by exists b, c, af, a).
      congruence.
    + split; [done|]. intros (b & c & af & a & [= ->] & H).
      assert (Microservice.scan_connections p (b ++ c :: af) = Ok true)
        as Es' by (apply scan_connections_true; by exists b, c, af, a).
      congruence.
    + split; [done|]. intros (b & c & af & a & [= ->] & H).
      assert (Microservice.scan_connections p (b ++ c :: af) = Ok true)
        as Es' by (apply scan_connections_true; by exists b, c, af, a).
      congruence.
  - split; [done|]. by intros (b & c & af & a & ? & _).
  - split; [done|]. by intros (b & c & af & a & ? & _).
Qed.

Lemma has_port_not (p : Z) (proc : Microservice.process) :
  Microservice.has_port p proc = false ↔ ¬ Spec.on_port p proc.
Proof.
  rewrite <- has_port_iff. by destruct (Microservice.has_port p proc).
Qed.

Lemma find_first {A} (f : A → bool) (l : list A) (x : A) :
  find f l = Some x ↔
  ∃ before after, l = before ++ x :: after ∧ f x = true ∧
                  Forall (λ y, f y = false) before.
Proof.
  induction l as [|y l IH]; cbn [find].
  - split; [done|]. intros (b & a & H & _). by destruct b.
  - destruct (f y) eqn:Ey.
    + split.
      * intros [= ->]. exists [], l. done.
      * intros ([|z b] & a & H & Hx & Hb).
        -- by injection H as ->.
        -- injection H as -> _. apply Forall_cons in Hb as [Hb _]. congruence.
    + rewrite IH. split.
      * intros (b & a & -> & Hx & Hb). exists (y :: b), a.
        split; [done|]. split; [done|]. by constructor.
      * intros ([|z b] & a & H & Hx & Hb).
        -- injection H as ->. congruence.
        -- injection H as -> ->. apply Forall_cons in Hb as [_ Hb].
           exists b, a. done.
Qed.

Lemma find_none {A} (f : A → bool) (l : list A) :
  find f l = None ↔ Forall (λ y, f y = false) l.
Proof.
  induction l as [|y l IH]; cbn [find]; [by split; [constructor|]|].
  destruct (f y) eqn:E.
  - split; [done|]. intros [? _]%Forall_cons. congruence.
  - rewrite IH. split; [by constructor|]. by intros [_ ?]%Forall_cons.
Qed.

Lemma find_on_port p procs proc :
  find (Microservice.has_port p) procs = Some proc ↔
  Spec.first_on_port p procs proc.
Proof.
  rewrite find_first. unfold Spec.first_on_port.
  split; intros (b & a & -> & H1 & H2); exists b, a; (split; [done|]).
  - split; [by apply has_port_iff|].
    eapply Forall_impl; [exact H2|]. intros q. by apply has_port_not.
  - split; [by apply has_port_iff|].
    eapply Forall_impl; [exact H2|]. intros q. by apply has_port_not.
Qed.

Lemma find_none_on_port p procs :
  find (Microservice.has_port p) procs = None ↔ Spec.none_on_port p procs.
Proof.
  rewrite find_none. unfold Spec.none_on_port.
  split; intros H; (eapply Forall_impl; [exact H|]); intros q;
    by apply has_port_not.
Qed.

(** The polling loop: either some attempt [i] below the budget is the
    first to find a process, after [i] fruitless attempts each followed by
    a sleep of one second, or all the attempts are fruitless. *)
Lemma poll_spec (snapshot : nat → list Microservice.process) (p : Z)
    (attempts k : nat) (log : list Microservice.event) :
  (∃ i proc,
     (i < attempts)%nat ∧
     (∀ j, (j < i)%nat → Spec.none_on_port p (snapshot (k + j)%nat)) ∧
     Spec.first_on_port p (snapshot (k + i)%nat) proc ∧
     Microservice.poll snapshot p attempts k log
     = (Some proc,
        (S (k + i),
         log ++ Spec.fruitless i ++ [Microservice.ProcessIter]))) ∨
  ((∀ j, (j < attempts)%nat → Spec.none_on_port p (snapshot (k + j)%nat)) ∧
   Microservice.poll snapshot p attempts k log
   = (None, ((k + attempts)%nat, log ++ Spec.fruitless attempts))).
Proof.
  unfold Spec.fruitless.
  revert k log. induction attempts as [|n IH]; intros k log.
  - right. split; [lia|]. cbn. by rewrite Nat.add_0_r, app_nil_r.
  - cbn [Microservice.poll].
    destruct (find (Microservice.has_port p) (snapshot k)) as [proc|] eqn:E.
    + left. exists 0%nat, proc. rewrite Nat.add_0_r.
      split; [lia|]. split; [lia|]. split; [by apply find_on_port|done].
    + apply find_none_on_port in E.
      destruct (IH (S k) (log ++ [Microservice.ProcessIter; Microservice.Sleep 1]))
        as [(i & proc & Hi & Hnone & Hfound & ->)|(Hnone & ->)].
      * left. exists (S i), proc. split; [lia|]. split.
        { intros [|j] Hj; [by rewrite Nat.add_0_r|].
          replace (k + S j)%nat with (S k + j)%nat by lia. apply Hnone. lia. }
        split; [by replace (k + S i)%nat with (S k + i)%nat by lia|].
        cbn [replicate concat]. rewrite <- !app_assoc.
        by replace (k + S i)%nat with (S k + i)%nat by lia.
      * right. split.
        { intros [|j] Hj; [by rewrite Nat.add_0_r|].
          replace (k + S j)%nat with (S k + j)%nat by lia. apply Hnone. lia. }
        cbn [replicate concat]. rewrite <- !app_assoc.
        by replace (k + S n)%nat with (S k + n)%nat by lia.
Qed.

(** A table has at most one first process on the port. *)
Lemma first_on_port_unique p procs proc proc' :
  Spec.first_on_port p procs proc → Spec.first_on_port p procs proc' →
  proc = proc'.
Proof.
  intros H1%find_on_port H2%find_on_port. congruence.
Qed.

Lemma first_not_none p procs proc :
  Spec.first_on_port p procs proc → ¬ Spec.none_on_port p procs.
Proof.
  intros H1%find_on_port H2%find_none_on_port. congruence.
Qed.

(** C6, amended: [waitForPort(port, timeout)] reads the process table at
    most [timeout + 1] times, the first time at once and then after a
    sleep of one second each. An attempt is fruitless when no process of
    the table lists an inet socket with the port as its local port before
    any socket without a local address; the state of the socket is not
    looked at. The first attempt that is not fruitless returns the first
    such process of its table, and when all attempts are fruitless the
    result is [None], after [timeout + 1] sleeps. One of the two cases
    always applies. *)
Theorem waitForPort_spec (snapshot : nat → list Microservice.process)
    (p timeout : Z) (k : nat) (log : list Microservice.event) :
  let attempts := Z.to_nat (timeout + 1) in
  (∀ i proc,
     (i < attempts)%nat →
     (∀ j, (j < i)%nat → Spec.none_on_port p (snapshot (k + j)%nat)) →
     Spec.first_on_port p (snapshot (k + i)%nat) proc →
     Microservice.waitForPort true snapshot p timeout (k, log)
     = (Ok (Some proc),
        (S (k + i), log ++ Spec.fruitless i ++ [Microservice.ProcessIter]))) ∧
  ((∀ j, (j < attempts)%nat → Spec.none_on_port p (snapshot (k + j)%nat)) →
   Microservice.waitForPort true snapshot p timeout (k, log)
   = (Ok None, ((k + attempts)%nat, log ++ Spec.fruitless attempts))) ∧
  ((∃ i proc,
      (i < attempts)%nat ∧
      (∀ j, (j < i)%nat → Spec.none_on_port p (snapshot (k + j)%nat)) ∧
      Spec.first_on_port p (snapshot (k + i)%nat) proc) ∨
   (∀ j, (j < attempts)%nat → Spec.none_on_port p (snapshot (k + j)%nat))).
Proof.
  intros attempts. unfold Microservice.waitForPort. cbn [fst snd].
  fold attempts.
  destruct (poll_spec snapshot p attempts k log)
    as [(i & proc & Hi & Hnone & Hfound & ->)|(Hnone & ->)].
  - split; [|split].
    + intros i' proc' Hi' Hnone' Hfound'. cbn [fst snd].
      destruct (Nat.lt_trichotomy i i') as [Hlt|[->|Hlt]].
      * destruct (first_not_none _ _ _ Hfound (Hnone' i Hlt)).
      * by rewrite (first_on_port_unique _ _ _ _ Hfound Hfound').
      * destruct (first_not_none _ _ _ Hfound' (Hnone i' Hlt)).
    + intros Hall. destruct (first_not_none _ _ _ Hfound (Hall i Hi)).
    + left. by exists i, proc.
  - split; [|split].
    + intros i' proc' Hi' _ Hfound'.
      destruct (first_not_none _ _ _ Hfound' (Hnone i' Hi')).
    + done.
    + by right.
Qed.

Lemma waitForPort_spec_witness :
  Microservice.waitForPort true Spec.third_reading 8080 60 (0%nat, [])
  = (Ok (Some Spec.server),
     (3%nat,
      [Microservice.ProcessIter; Microservice.Sleep 1;
       Microservice.ProcessIter; Microservice.Sleep 1;
       Microservice.ProcessIter])).
Proof.
  refine (proj1 (waitForPort_spec Spec.third_reading 8080 60 0 [])
            2%nat Spec.server _ _ _).
  - vm_compute. lia.
  - intros j Hj. apply find_none_on_port.
    destruct j as [|[|j]]; [reflexivity|reflexivity|lia].
  - apply find_on_port. reflexivity.
Defined.

(** C6, as stated, fails: the process returned need not have a
    listening socket on the port. With a process that holds a UDP socket
    on port 8080 listed before the server that listens on it, the probe
    returns the former. *)
Lemma waitForPort_listening_counterexample :
  Microservice.waitForPort true (λ _, [Spec.udp_8080; Spec.server]) 8080 60
    (0%nat, [])
  = (Ok (Some Spec.udp_8080), (1%nat, [Microservice.ProcessIter])) ∧
  ¬ Spec.listens_on 8080 Spec.udp_8080 ∧
  Spec.listens_on 8080 Spec.server.
Proof.
  split; [reflexivity|]. split.
  - intros (conns & c & a & [= <-] & Hc & Hs & _).
    apply list_elem_of_singleton in Hc as ->. discriminate Hs.
  - eexists _, _, _. split; [reflexivity|].
    split; [by apply list_elem_of_singleton|]. done.
Qed.

(** ** The stage controller *)

Section StageFacts.

Context {W command : Type}.
Variable apply_command_mapper_hooks : bool → command → command.
Variable mx_run : command → action W Z.
Variable setup_application firstResponse startup : action W unit.
Variable peak : bool → action W unit.
Variable calibrate latency : action W unit.
Variable latencyConfiguration : action W (list (gmap string json)).
Variable measureLatency : W → bool.
Variable NumMeasureTimeToFirstResponse : nat.
Variable os_environ : W → gmap string string.
Variable set_os_environ : gmap string string → W → W.
Variable get_env : gmap string string.

Local Abbreviation logged_phase :=
  (Microservice.phase (Spec.logged_run mx_run)
     (Spec.keep_log setup_application) (λ hw, os_environ hw.2)
     (λ e hw, (hw.1, set_os_environ e hw.2)) get_env).

Lemma read_bind {S A B} (f : S → A) (k : A → action S B) (s : S) :
  ((λ w, (Ok (f w), w)) ≫= k) s = k (f s) s.
Proof. done. Qed.

(** A thread leaves the record of the exit codes alone. *)
Lemma thread_logged (target : action W unit) h w :
  Microservice.startDaemonThread (Spec.keep_log setup_application)
    (Spec.keep_log target) (h, w)
  = (h, Microservice.startDaemonThread setup_application target w).
Proof.
  unfold Microservice.startDaemonThread, Spec.keep_log, mbind, action_bind.
  cbn [fst snd]. destruct (setup_application w) as [[[]| |] w1]; done.
Qed.

(** A phase records the exit code of its one invocation, if the
    invocation returns. *)
Lemma phase_logged (target : action W unit) cmd h w :
  Microservice.phase (Spec.logged_run mx_run)
    (Spec.keep_log setup_application) (λ hw, os_environ hw.2)
    (λ e hw, (hw.1, set_os_environ e hw.2)) get_env
    (Spec.keep_log target) cmd (h, w)
  = Spec.logged_run
      (Microservice.phase mx_run setup_application os_environ set_os_environ
         get_env target) cmd (h, w).
Proof.
  unfold Microservice.phase, Microservice.with_EmptyEnv, Spec.logged_run.
  cbn [fst snd]. rewrite thread_logged. cbn [fst snd].
  by destruct (mx_run cmd _) as [[rc| |] w1].
Qed.

(** A phase followed by the check of its exit code. *)
Lemma validated_checked (target : action W unit) cmd h w :
  let res :=
    Microservice.validated (logged_phase (Spec.keep_log target) cmd)
      (h, w) in
  Spec.checked 1 1 h res.2.1 res.1 ∧ (∀ c, res.1 = Ok c → c = 143).
Proof.
  unfold Microservice.validated, mbind, action_bind.
  rewrite phase_logged. unfold Spec.logged_run. cbn [fst snd].
  destruct (Microservice.phase _ _ _ _ _ _ _ _) as [[rc| |] w1];
    cbn [fst snd].
  - unfold Microservice.validateReturnCode.
    destruct (Z.eqb_spec rc 143) as [->|Hrc]; cbn [fst snd].
    + split; [|by intros c [= <-]]. exists [143]. split; [done|].
      left. split; [by repeat constructor|]. cbn. lia.
    + split; [|done]. exists [rc]. split; [done|].
      right. exists [], rc. done.
  - split; [|done]. exists []. rewrite app_nil_r. split; [done|].
    left. by split; [constructor|].
  - split; [|done]. exists []. rewrite app_nil_r. split; [done|].
    left. by split; [constructor|].
Qed.

(** Checked stages compose. *)
Lemma checked_bind {A B} (m : action (list Z * W) A)
    (k : A → action (list Z * W) B) lo1 hi1 lo2 hi2 h w :
  Spec.checked lo1 hi1 h (m (h, w)).2.1 (m (h, w)).1 →
  (∀ a h1 w1, m (h, w) = (Ok a, (h1, w1)) →
     Spec.checked lo2 hi2 h1 (k a (h1, w1)).2.1 (k a (h1, w1)).1) →
  Spec.checked (lo1 + lo2) (hi1 + hi2) h
    ((m ≫= k) (h, w)).2.1 ((m ≫= k) (h, w)).1.
Proof.
  intros H1 H2. unfold mbind, action_bind.
  destruct (m (h, w)) as [[a|why|e] [h1 w1]] eqn:E; cbn [fst snd] in *.
  - specialize (H2 a h1 w1 eq_refl).
    destruct H1 as (c1 & -> & [[F1 L1]|(g & c & -> & _ & _ & ?)]); [|done].
    destruct H2 as (c2 & -> & [[F2 L2]|(g & c & -> & Fg & Hc & Hr)]).
    + exists (c1 ++ c2). split; [by rewrite app_assoc|]. left.
      split; [by apply Forall_app|]. intros Hok.
      specialize (L1 eq_refl). specialize (L2 Hok).
      rewrite length_app. lia.
    + exists (c1 ++ g ++ [c]). split; [by rewrite <- !app_assoc|]. right.
      exists (c1 ++ g), c. split; [by rewrite app_assoc|].
      split; [by apply Forall_app|]. done.
  - destruct H1 as (c1 & -> & [[F1 L1]|(g & c & -> & Fg & Hc & [= ->])]).
    + exists c1. split; [done|]. left. done.
    + exists (g ++ [c]). split; [done|]. right. by exists g, c.
  - destruct H1 as (c1 & -> & [[F1 L1]|(g & c & -> & Fg & Hc & ?)]); [|done].
    exists c1. split; [done|]. left. done.
Qed.

(** What does not run the server adds nothing to the record. *)
Lemma checked_keep {A} (f : action W A) h w :
  Spec.checked 0 0 h (Spec.keep_log f (h, w)).2.1 (Spec.keep_log f (h, w)).1.
Proof.
  exists []. cbn. rewrite app_nil_r. split; [done|]. left.
  split; [constructor|]. cbn. lia.
Qed.

Lemma checked_ret {A} (a : A) h (w : W) :
  Spec.checked 0 0 h ((mret a : action (list Z * W) A) (h, w)).2.1
    ((mret a : action (list Z * W) A) (h, w)).1.
Proof.
  exists []. cbn. rewrite app_nil_r. split; [done|]. left.
  split; [constructor|]. cbn. lia.
Qed.

Lemma checked_weaken {A} lo hi lo' hi' h h' (r : outcome A) :
  (lo' ≤ lo)%nat → (hi ≤ hi')%nat →
  Spec.checked lo hi h h' r → Spec.checked lo' hi' h h' r.
Proof.
  intros Hlo Hhi (c & -> & [[F L]|H]); exists c; (split; [done|]).
  - left. split; [done|]. intros Hok. specialize (L Hok). lia.
  - by right.
Qed.

Lemma first_responses_checked n cmd h w :
  let res :=
    Microservice.first_responses (Spec.logged_run mx_run)
      (Spec.keep_log setup_application) (Spec.keep_log firstResponse)
      (λ hw, os_environ hw.2) (λ e hw, (hw.1, set_os_environ e hw.2))
      get_env n cmd (h, w) in
  Spec.checked n n h res.2.1 res.1.
Proof.
  revert h w. induction n as [|n IH]; intros h w;
    cbn [Microservice.first_responses].
  - apply checked_ret.
  - change (S n) with (1 + n)%nat. apply checked_bind.
    + apply validated_checked.
    + intros _ h1 w1 _. apply IH.
Qed.

(** C2, amended. In the run stage every invocation of the server is
    followed by the check of its exit code: the codes of the invocations
    made are all 143, or all 143 up to the last one, and then the stage
    aborts with that code and runs nothing more. A run stage that returns
    has made between [NumMeasureTimeToFirstResponse + 2] and
    [NumMeasureTimeToFirstResponse + 4] invocations and returns 143. What
    becomes of the measurement threads has no part in it. In the agent
    and instrument-run stages the server is run once, and its exit code,
    whatever it is, is returned to the caller: a server that exits with
    [c] makes the stage return [c], with that one code on record. *)
Theorem run_stage_validates :
  let stage :=
    Spec.logged_stage apply_command_mapper_hooks mx_run setup_application
      firstResponse startup peak calibrate latency latencyConfiguration
      measureLatency NumMeasureTimeToFirstResponse os_environ set_os_environ
      get_env in
  (∀ cmd h w,
     ∃ codes,
       (stage "run" cmd (h, w)).2.1 = h ++ codes ∧
       ((Forall (λ c, c = 143) codes ∧
         (∀ rc, (stage "run" cmd (h, w)).1 = Ok rc →
                rc = 143 ∧
                (NumMeasureTimeToFirstResponse + 2 ≤ length codes
                 ≤ NumMeasureTimeToFirstResponse + 4)%nat)) ∨
        (∃ good c,
           codes = good ++ [c] ∧ Forall (λ x, x = 143) good ∧ c ≠ 143 ∧
           (stage "run" cmd (h, w)).1 = Abort (UnexpectedReturnCode c)))) ∧
  (∀ name cmd h w c,
     Microservice.substring "image" name = false →
     name = "agent" ∨ Microservice.substring "instrument-run" name = true →
     (∀ w0, (mx_run cmd w0).1 = Ok c) →
     (stage name cmd (h, w)).1 = Ok c ∧
     (stage name cmd (h, w)).2.1 = h ++ [c]).
Proof.
  intros stage. split.
  - intros cmd h w.
    assert (Spec.checked (NumMeasureTimeToFirstResponse + 2)
              (NumMeasureTimeToFirstResponse + 4) h
              (stage "run" cmd (h, w)).2.1 (stage "run" cmd (h, w)).1 ∧
            ∀ rc, (stage "run" cmd (h, w)).1 = Ok rc → rc = 143) as [Hc H143].
    { unfold stage, Spec.logged_stage, Microservice.run_stage.
      change (Microservice.substring "image" "run") with false.
      change (String.eqb "run" "run") with true. cbv iota zeta.
      split.
      - apply (checked_weaken (NumMeasureTimeToFirstResponse + 2)
                 (NumMeasureTimeToFirstResponse + 4)); [lia|lia|].
        apply (checked_bind _ _ NumMeasureTimeToFirstResponse
                 NumMeasureTimeToFirstResponse 2 4);
          [apply first_responses_checked|].
        intros _ h1 w1 _.
        apply (checked_bind _ _ 1 1 1 3); [apply validated_checked|].
        intros _ h2 w2 _.
        apply (checked_bind _ _ 1 1 0 2); [apply validated_checked|].
        intros rc h3 w3 _.
        rewrite read_bind. cbn [snd].
        destruct (measureLatency w3);
          [|apply (checked_weaken 0 0); [lia|lia|apply checked_ret]].
        apply (checked_bind _ _ 0 0 0 2); [apply checked_keep|].
        intros configs h4 w4 _.
        apply (checked_weaken 1 2); [lia|lia|].
        apply (checked_bind _ _ 0 1 1 1).
        + destruct (Microservice.no_fixed_rate configs).
          * apply (checked_weaken 1 1); [lia|lia|].
            apply (checked_bind _ _ 1 1 0 0); [apply validated_checked|].
            intros _ h5 w5 _. apply checked_ret.
          * apply (checked_weaken 0 0); [lia|lia|apply checked_ret].
        + intros _ h5 w5 _. apply validated_checked.
      - intros rc. unfold mbind, action_bind.
        destruct (Microservice.first_responses _ _ _ _ _ _)
          as [[[]| |] [h1 w1]]; [|done..].
        destruct (Microservice.validated _ (h1, w1))
          as [[rc2| |] [h2 w2]]; [|done..].
        pose proof (validated_checked (peak true)
                      (apply_command_mapper_hooks true cmd) h2 w2) as [_ Hp].
        cbv zeta in Hp.
        destruct (Microservice.validated _ (h2, w2))
          as [[rc3| |] [h3 w3]]; [|done..].
        cbn [fst snd] in *. specialize (Hp rc3 eq_refl). subst rc3.
        destruct (measureLatency w3); [|by intros [= <-]].
        destruct (Spec.keep_log latencyConfiguration (h3, w3))
          as [[configs| |] [h4 w4]]; [|done..].
        destruct (Microservice.no_fixed_rate configs).
        + destruct (Microservice.validated _ (h4, w4))
            as [[rc5| |] [h5 w5]]; [|done..].
          cbn [fst snd].
          pose proof (validated_checked latency
                        (apply_command_mapper_hooks false cmd) h5 w5)
            as [_ Hl].
          cbv zeta in Hl. exact (Hl rc).
        + cbn [fst snd].
          pose proof (validated_checked latency
                        (apply_command_mapper_hooks false cmd) h4 w4)
            as [_ Hl].
          cbv zeta in Hl. exact (Hl rc). }
    destruct Hc as (codes & E & [[F L]|H]); exists codes; (split; [done|]).
    + left. split; [done|]. intros rc Hrc. split; [by apply H143|].
      apply L. by rewrite Hrc.
    + by right.
  - intros name cmd h w c Himage Hname Hrun.
    unfold stage, Spec.logged_stage, Microservice.run_stage.
    rewrite Himage.
    assert (String.eqb name "run" = false) as ->.
    { apply String.eqb_neq. intros ->. by destruct Hname. }
    assert (String.eqb name "agent"
            || Microservice.substring "instrument-run" name = true) as ->.
    { destruct Hname as [->| ->]; [done|]. by rewrite orb_true_r. }
    rewrite phase_logged.
    unfold Spec.logged_run, Microservice.phase, Microservice.with_EmptyEnv.
    cbn [fst snd]. specialize (Hrun
      (Microservice.startDaemonThread setup_application (peak false)
         (set_os_environ (Microservice.EmptyEnv_enter get_env (os_environ w))
            w))).
    destruct (mx_run cmd _) as [r w1]. cbn [fst snd] in *. by subst r.
Qed.

End StageFacts.

Lemma run_stage_validates_witness :
  Spec.plain_stage 7 "instrument-run" () ([], ()) = (Ok 7, ([7], ())) ∧
  Spec.failing_threads 11 1 "run" () ([], 0%nat)
  = (Abort (UnexpectedReturnCode 1), (replicate 11 143 ++ [1], 12%nat)).
Proof.
  split; [|reflexivity].
  pose proof (proj2 (run_stage_validates (λ _ c, c) (Spec.exits_with 7)
                       (mret ()) (mret ()) (mret ()) (λ _, mret ()) (mret ())
                       (mret ()) (mret []) (λ _, true) 10 (λ _, ∅)
                       (λ _ w, w) ∅)
                "instrument-run" () [] () 7 eq_refl (or_intror eq_refl)
                (λ _, eq_refl)) as [H1 H2].
  destruct (Spec.plain_stage 7 "instrument-run" () ([], ()))
    as [r [h []]].
  cbn [fst snd] in H1, H2. by rewrite H1, H2.
Defined.

(** C2, as stated, fails: in the agent stage (and in the instrument-run
    stage) a server that exits with code 1 does not abort the run; the
    stage returns 1. *)
Lemma run_stage_agent_counterexample :
  Spec.plain_stage 1 "agent" () ([], ()) = (Ok 1, ([1], ())) ∧
  Spec.plain_stage 1 "instrument-run" () ([], ()) = (Ok 1, ([1], ())) ∧
  Microservice.validateReturnCode 1 = false.
Proof. done. Qed.

(** ** The outcomes of computeAverage *)

(** C5, amended: [computeAverage] aborts with [EmptyInput] on the empty
    sequence and with [KeySetMismatch] on two or more results whose key
    sets differ; it succeeds exactly when the sequence is non-empty and
    all its elements have one key set. It then returns its first element,
    which holds under every key the accumulated total divided by the
    number of results (its own value when it is alone). That is the mean
    of the values of the results, as binary64 computes it from left to
    right, when the first dictionary does not occur again in the
    sequence. Fewer than 2^53 results. *)
Theorem computeAverage_outcomes (results : list positive) (σ : store) :
  Z.of_nat (length results) < 2 ^ 53 →
  (results = [] → Wrk.computeAverage results σ = Abort (EmptyInput 0)) ∧
  (2 ≤ length results → ¬ Spec.same_keys σ results →
   ∃ K K', Wrk.computeAverage results σ = Abort (KeySetMismatch K K') ∧
           K ≠ K')%nat ∧
  (is_ok (Wrk.computeAverage results σ) = true ↔
   results ≠ [] ∧ Spec.same_keys σ results) ∧
  (∀ a σ', Wrk.computeAverage results σ = Ok (a, σ') →
     ∃ rest, results = a :: rest ∧
       ∀ k x, (σ !!! a) !! k = Some x →
         (σ' !!! a) !! k
         = Some (match rest with
                 | [] => x
                 | _ => (Spec.total σ a k rest x
                         / Py.Z2F (Z.of_nat (length results)))%float
                 end) ∧
         (a ∉ rest →
          (σ' !!! a) !! k = Some (Spec.fmean (Spec.column σ k results)))).
Proof.
  intros Hlen.
  assert (∀ a rest, results = a :: rest → rest ≠ [] →
            ¬ Spec.same_keys σ results →
            ∃ K K', Wrk.computeAverage results σ
                    = Abort (KeySetMismatch K K') ∧ K ≠ K') as Hmis.
  { intros a rest -> Hne Hns. cbn [Spec.same_keys] in Hns.
    apply not_Forall_Exists in Hns; [|intros r; apply _].
    destruct (accumulate_some_mismatch a σ rest σ Hns (frame_refl a σ) eq_refl)
      as (K' & E & HK').
    exists (dom (σ !!! a)), K'. split; [|done].
    unfold Wrk.computeAverage. destruct rest as [|r rest']; [done|].
    cbv zeta. by rewrite E. }
  split; [by intros ->|]. split.
  { intros H2 Hns. destruct results as [|a [|r rest]]; cbn in H2; try lia.
    by apply (Hmis a (r :: rest)). }
  split.
  { split.
    - intros Hok. destruct results as [|a rest]; [done|]. split; [done|].
      destruct rest as [|r rest']; [by constructor|].
      destruct (decide (Spec.same_keys σ (a :: r :: rest'))) as [|Hns];
        [done|exfalso].
      destruct (Hmis a (r :: rest') eq_refl ltac:(done) Hns) as (? & ? & E & _).
      by rewrite E in Hok.
    - intros [Hne Hsk]. destruct results as [|a rest]; [done|].
      destruct rest as [|r rest']; [done|].
      destruct (computeAverage_closed a (r :: rest') σ) as (σ' & -> & _);
        done. }
  intros a σ' E.
  destruct results as [|a0 rest]; [done|].
  destruct rest as [|r rest'].
  { cbn in E. injection E as <- <-. exists []. split; [done|].
    intros k x Hx. split; [done|]. intros _. cbn. by rewrite Hx. }
  destruct (decide (Spec.same_keys σ (a0 :: r :: rest'))) as [Hsk|Hns].
  - destruct (computeAverage_closed a0 (r :: rest') σ)
      as (σ2 & E2 & _ & _ & Hv); [done..|].
    rewrite E2 in E. injection E as <- <-.
    exists (r :: rest'). split; [done|]. intros k x Hx.
    rewrite (Hv k x Hx). split; [done|]. intros Ha0.
    rewrite total_no_alias by done.
    cbn [Spec.column fmap list_fmap Spec.fmean]. rewrite Hx. cbn [default].
    do 3 f_equal. cbn [length]. by rewrite !length_fmap.
  - destruct (Hmis a0 (r :: rest') eq_refl ltac:(done) Hns) as (? & ? & E' & _).
    by rewrite E' in E.
Qed.

Lemma computeAverage_outcomes_witness :
  ∃ σ', Wrk.computeAverage [1; 2]%positive Spec.two_results
        = Ok (1%positive, σ') ∧
        (σ' !!! 1%positive) !! "throughput" = Some 2000%float ∧
        (σ' !!! 1%positive) !! "99.000%" = Some 3%float.
Proof.
  assert (Z.of_nat (length [1; 2]%positive) < 2 ^ 53) as H by (by vm_compute).
  destruct (computeAverage_closed 1%positive [2%positive] Spec.two_results)
    as (σ' & E & _); [done|by vm_compute|repeat constructor|].
  pose proof (proj2 (proj2 (proj2
                (computeAverage_outcomes [1; 2]%positive Spec.two_results H)))
                1%positive σ' E) as (rest & Hr & Hv).
  injection Hr as <-.
  assert (1%positive ∉ [2%positive]) as Hn
    by (intros Hin%list_elem_of_singleton; discriminate Hin).
  assert ((Spec.two_results !!! 1%positive) !! "throughput" = Some 1000%float)
    as Ht by (vm_compute; reflexivity).
  assert ((Spec.two_results !!! 1%positive) !! "99.000%" = Some 2%float)
    as Hl by (vm_compute; reflexivity).
  exists σ'. split; [exact E|]. split.
  - rewrite (proj2 (Hv _ _ Ht) Hn). vm_compute. reflexivity.
  - rewrite (proj2 (Hv _ _ Hl) Hn). vm_compute. reflexivity.
Defined.

(** C5, as stated, fails: a sequence that holds the same dictionary
    three times is non-empty and has one key set, and [computeAverage]
    succeeds on it, but what it returns is not the mean of the values: the
    second and third element read the running total, which gives
    (1000 + 1000 + 2000) / 3 where the mean is 1000. *)
Lemma computeAverage_mean_counterexample :
  ∃ σ', Wrk.computeAverage [1; 1; 1]%positive Spec.two_results
        = Ok (1%positive, σ') ∧
        Spec.same_keys Spec.two_results [1; 1; 1]%positive ∧
        (σ' !!! 1%positive) !! "throughput" = Some (4000 / 3)%float ∧
        Spec.fmean (Spec.column Spec.two_results "throughput"
                      [1; 1; 1]%positive) = 1000%float ∧
        (4000 / 3)%float ≠ 1000%float.
Proof.
  destruct (computeAverage_closed 1%positive [1; 1]%positive Spec.two_results)
    as (σ' & E & _ & _ & Hv); [done|by vm_compute|repeat constructor|].
  exists σ'. split; [exact E|]. split; [repeat constructor|]. split.
  { rewrite (Hv "throughput" 1000%float eq_refl). by vm_compute. }
  split; [by vm_compute|]. apply float_neq. by vm_compute.
Qed.

(** ** The configuration loader *)

Lemma readMandatory_obj (o : gmap string json) (key : string) :
  Wrk.readMandatory (JObj o) key
  = match o !! key with
    | Some v => Ok v
    | None => Abort (MandatoryEntryMissing key)
    end.
Proof.
  unfold Wrk.readMandatory, Wrk.readConfig, Json.contains, Json.get.
  rewrite bind_ok. destruct (o !! key) as [v|] eqn:E.
  - by rewrite bool_decide_eq_true_2 by eauto.
  - by rewrite bool_decide_eq_false_2 by (by intros [? ?]).
Qed.

Lemma readOptional_obj (o : gmap string json) (key : string) :
  Wrk.readConfig (JObj o) key true = Ok (o !! key).
Proof.
  unfold Wrk.readConfig, Json.contains, Json.get.
  rewrite bind_ok. destruct (o !! key) as [v|] eqn:E.
  - by rewrite bool_decide_eq_true_2 by eauto.
  - by rewrite bool_decide_eq_false_2 by (by intros [? ?]).
Qed.

(** What [loadConfiguration] does once the entries are read. *)
Lemma loadConfiguration_read top groupKey tu co th script wrps wd d rps :
  Spec.workload top groupKey tu co th script wrps wd d rps →
  Wrk.loadConfiguration (JObj top) groupKey
  = let scalarScriptValue := Wrk.isScalarValue script in
    if negb (eqb scalarScriptValue (Wrk.isScalarValue wrps))
       || negb (eqb scalarScriptValue (Wrk.isScalarValue wd))
       || negb (eqb scalarScriptValue (Wrk.isScalarValue d))
    then Abort ElementCountMismatch
    else if scalarScriptValue then
      let result := Wrk.base_record tu co th script wrps wd d in
      match rps with
      | Some r =>
          if Json.truthy r
          then Ok [<["requests-per-second" := r]> result]
          else Ok [result]
      | None => Ok [result]
      end
    else
      count ← Json.len script;
      cw ← Json.len wrps;
      if negb (count =? cw)%nat then Abort ElementCountMismatch else
      cwd ← Json.len wd;
      if negb (count =? cwd)%nat then Abort ElementCountMismatch else
      cd ← Json.len d;
      if negb (count =? cd)%nat then Abort ElementCountMismatch else
      for_each (Wrk.record_at tu co th script wrps wd d rps) (seq 0 count) [].
Proof.
  intros (Htu & Hco & Hth & g & Hg & Hs & Hw & Hwd & Hd & Hr).
  unfold Wrk.loadConfiguration.
  rewrite ?readMandatory_obj, Htu, bind_ok.
  rewrite ?readMandatory_obj, Hco, bind_ok.
  rewrite ?readMandatory_obj, Hth, bind_ok.
  rewrite ?readMandatory_obj, Hg, bind_ok.
  rewrite ?readMandatory_obj, Hs, bind_ok.
  rewrite ?readMandatory_obj, Hw, bind_ok.
  rewrite ?readMandatory_obj, Hwd, bind_ok.
  rewrite readOptional_obj, Hr, bind_ok.
  rewrite ?readMandatory_obj, Hd, bind_ok. done.
Qed.

Lemma item_list (l : list json) (i : nat) :
  (i < length l)%nat → Json.item i (JList l) = Ok (default JNull (l !! i)).
Proof.
  intros Hi. cbn [Json.item].
  destruct (lookup_lt_is_Some_2 l i Hi) as [x ->]. done.
Qed.

Lemma record_at_lists tu co th scripts ws wds ds rps rates n i acc :
  Spec.rates_for n rps rates →
  (i < n)%nat → (n ≤ length scripts)%nat → (n ≤ length ws)%nat →
  (n ≤ length wds)%nat → (n ≤ length ds)%nat →
  Wrk.record_at tu co th (JList scripts) (JList ws) (JList wds) (JList ds)
    rps i acc
  = Ok (acc ++ [Spec.record_of tu co th scripts ws wds ds rates i]).
Proof.
  intros Hr Hi H1 H2 H3 H4. unfold Wrk.record_at, Spec.record_of.
  rewrite !item_list, !bind_ok by lia.
  unfold Spec.rates_for in Hr. destruct rps as [r|]; [|by subst rates].
  destruct (Json.truthy r); [|by subst rates].
  destruct Hr as (rs & -> & Hlen & ->).
  by rewrite item_list, bind_ok by lia.
Qed.

(** The loop [for i in range(count)] over lists that are long enough. *)
Lemma records_loop tu co th scripts ws wds ds rps rates n (a m : nat) acc :
  Spec.rates_for n rps rates →
  (a + m ≤ n)%nat → (n ≤ length scripts)%nat → (n ≤ length ws)%nat →
  (n ≤ length wds)%nat → (n ≤ length ds)%nat →
  for_each
    (Wrk.record_at tu co th (JList scripts) (JList ws) (JList wds) (JList ds)
       rps)
    (seq a m) acc
  = Ok (acc ++ (Spec.record_of tu co th scripts ws wds ds rates <$> seq a m)).
Proof.
  intros Hr Ham H1 H2 H3 H4. revert a acc Ham.
  induction m as [|m IH]; intros a acc Ham.
  - cbn. by rewrite app_nil_r.
  - cbn [seq for_each fmap list_fmap].
    rewrite (record_at_lists _ _ _ _ _ _ _ _ rates n) by (done || lia).
    rewrite bind_ok, IH by lia. by rewrite <- app_assoc.
Qed.

(** The loop stops with [IndexError] at the first script for which the
    list of fixed rates has no element. *)
Lemma records_loop_short tu co th scripts ws wds ds rs n (a m : nat) acc :
  (a ≤ length rs)%nat → (0 < length rs)%nat → (length rs < a + m)%nat →
  (a + m ≤ n)%nat → (n ≤ length scripts)%nat → (n ≤ length ws)%nat →
  (n ≤ length wds)%nat → (n ≤ length ds)%nat →
  for_each
    (Wrk.record_at tu co th (JList scripts) (JList ws) (JList wds) (JList ds)
       (Some (JList rs)))
    (seq a m) acc
  = Raise IndexError.
Proof.
  intros Ha Hrs Hlt Ham H1 H2 H3 H4. revert a acc Ha Hlt Ham.
  assert (Json.truthy (JList rs) = true) as Htr.
  { cbn. destruct rs; [cbn in Hrs; lia|]. by rewrite bool_decide_eq_false_2. }
  induction m as [|m IH]; intros a acc Ha Hlt Ham; [lia|].
  cbn [seq for_each].
  destruct (decide (a < length rs)%nat) as [Hin|Hout].
  - rewrite (record_at_lists _ _ _ _ _ _ _ _ (Some rs) (length rs));
      [|unfold Spec.rates_for; rewrite Htr; by eexists|lia..].
    rewrite bind_ok. apply IH; lia.
  - assert (a = length rs) as -> by lia.
    unfold Wrk.record_at.
    rewrite (item_list scripts), (item_list ws), (item_list wds),
      (item_list ds), !bind_ok by lia.
    cbv beta iota. rewrite Htr.
    cbn [Json.item]. by rewrite (lookup_ge_None_2 rs) by lia.
Qed.




(** ** The target rate of the latency measurement *)

Lemma normal_three_quarters :
  B64.normal (Prim2SF 0.75) false 6755399441055744 (-53).
Proof. split; [done|]. split; [split; by vm_compute|lia]. Qed.

(** The arithmetic behind [int(n * 0.75)]: the binary64 product is
    exact. *)
Lemma three_quarters_arith (n W m' A' B : Z) :
  0 < W → 0 < B → 0 < A' → 4 * A' * B = 2 ^ 53 * W →
  2 * Z.abs (m' * B - n * W * 6755399441055744) ≤ B →
  m' / (4 * A') = 3 * n / 4.
Proof.
  intros HW HB HA' HAB Habs.
  change (2 ^ 53) with 9007199254740992 in HAB.
  assert (A' * B = 2251799813685248 * W) as HAB' by lia.
  assert (n * W * 6755399441055744 = (3 * n * A') * B) as HM.
  { replace ((3 * n * A') * B) with (3 * n * (A' * B)) by lia.
    rewrite HAB'. lia. }
  rewrite HM in Habs.
  assert (m' = 3 * n * A') as -> by nia.
  replace (3 * n * A') with ((3 * n) * A') by lia.
  replace (4 * A') with (4 * A') by lia.
  apply Z.div_mul_cancel_r; lia.
Qed.

(** [int(float(n) * 0.75)] is the integer part of three quarters of
    [n]. *)
Lemma int_three_quarters (n : Z) :
  0 ≤ n < 2 ^ 50 → Py.int (Py.Z2F n * 0.75) = Ok (3 * n / 4).
Proof.
  intros Hlen.
  destruct (decide (n = 0)) as [->|Hn0]; [by vm_compute|].
  destruct (Z2F_exact n) as (m & e & Hn & He & Hv).
  { change (2 ^ 53) with 9007199254740992.
    change (2 ^ 50) with 1125899906842624 in Hlen. lia. }
  assert (0 < 2 ^ (- e)) as HW by (apply Z.pow_pos_nonneg; lia).
  assert (e ≤ -3) as He3.
  { destruct (decide (e ≤ -3)); [done|exfalso].
    assert (2 ^ (- e) ≤ 2 ^ 2) by (apply Z.pow_le_mono_r; lia).
    destruct Hn as (_ & Hm & _).
    change (2 ^ 52) with 4503599627370496 in *.
    change (2 ^ 50) with 1125899906842624 in *.
    change (2 ^ 2) with 4 in *. nia. }
  destruct (mul_normal (Py.Z2F n) 0.75 _ _ _ _ _ _ Hn normal_three_quarters)
    as (m' & e' & k & (E & Hm' & He') & Hk & HM & Hek & Habs); [lia..|].
  unfold Py.int. rewrite E. cbn [xorb cond_Zopp]. f_equal.
  rewrite shiftl_neg by lia.
  replace (2 ^ (- e')) with (4 * 2 ^ (- e' - 2)).
  2:{ change 4 with (2 ^ 2). rewrite <- Z.pow_add_r by lia. f_equal. lia. }
  apply (three_quarters_arith n (2 ^ (- e)) (Z.pos m') (2 ^ (- e' - 2))
           (2 ^ (e' - (e + -53)))).
  - done.
  - apply Z.pow_pos_nonneg; lia.
  - apply Z.pow_pos_nonneg; lia.
  - change 4 with (2 ^ 2). rewrite <- !Z.pow_add_r by lia. f_equal. lia.
  - rewrite <- Hv.
    assert (2 ^ k ≤ 2 ^ (e' - (e + -53))) by (apply Z.pow_le_mono_r; lia).
    lia.
Qed.

Lemma M_bind_ok {A B} (m : Wrk.M A) (f : A → Wrk.M B) w b w' :
  @mbind Wrk.M Wrk.M_bind A B f m w = Ok (b, w') →
  ∃ a w1, m w = Ok (a, w1) ∧ f a w1 = Ok (b, w').
Proof.
  unfold mbind, Wrk.M_bind, Wrk.bind.
  destruct (m w) as [[a w1]| |]; [|done..]. intros H. by exists a, w1.
Qed.

Lemma M_lift_ok {A} (o : outcome A) w a w' :
  Wrk.lift o w = Ok (a, w') → o = Ok a ∧ w' = w.
Proof. unfold Wrk.lift. destruct o; [|done..]. by intros [= -> ->]. Qed.

Lemma M_ret_ok {A} (x : A) w a w' :
  Wrk.ret x w = Ok (a, w') → a = x ∧ w' = w.
Proof. by intros [= -> ->]. Qed.

Section LatencyFacts.

Variable config : json.
Variable os_name : string.
Variable binary_exists : Wrk.tool → bool.
Variable tool_output : nat → outcome string.
Variable findall_throughput : string → list string.
Variable findall_latency : string → list (string * string * string).
Variable float_of_string : string → outcome float.

Local Abbreviation runWrk := (Wrk.runWrk os_name binary_exists tool_output).
Local Abbreviation extractThroughput :=
  (Wrk.extractThroughput findall_throughput float_of_string).
Local Abbreviation verifyThroughput :=
  (Wrk.verifyThroughput findall_throughput float_of_string).
Local Abbreviation warmup :=
  (Wrk.warmup os_name binary_exists tool_output findall_throughput
     float_of_string).
Local Abbreviation measure_throughput :=
  (Wrk.measure_throughput os_name binary_exists tool_output
     findall_throughput float_of_string).
Local Abbreviation calibrateLatencyTest :=
  (Wrk.calibrateLatencyTest config os_name binary_exists tool_output
     findall_throughput float_of_string).
Local Abbreviation measure_latency :=
  (Wrk.measure_latency os_name binary_exists tool_output findall_throughput
     findall_latency float_of_string).
Local Abbreviation measure_latencies :=
  (Wrk.measure_latencies os_name binary_exists tool_output
     findall_throughput findall_latency float_of_string).
Local Abbreviation testLatency :=
  (Wrk.testLatency config os_name binary_exists tool_output
     findall_throughput findall_latency float_of_string).

(** A tool run is appended to the runs, with the flags it was given,
    and prints what the tool prints at that run. *)
Lemma runWrk_ok t flags w out w' :
  runWrk t flags w = Ok (out, w') →
  tool_output (length (Wrk.runs w)) = Ok out ∧
  Wrk.runs w' = Wrk.runs w ++ [(t, flags)] ∧
  Wrk.calibratedThroughput w' = Wrk.calibratedThroughput w.
Proof.
  unfold Wrk.runWrk. destruct (Wrk.getOS os_name); [|done..].
  rewrite bind_ok. destruct (binary_exists t); [|done].
  destruct (tool_output _) as [o| |]; [|done..]. rewrite bind_ok.
  by intros [= -> <-].
Qed.

Lemma verifyThroughput_ok out expected w w' :
  verifyThroughput out expected w = Ok ((), w') →
  Wrk.runs w' = Wrk.runs w ∧
  Wrk.calibratedThroughput w' = Wrk.calibratedThroughput w.
Proof.
  unfold Wrk.verifyThroughput.
  destruct (findall_throughput out) as [|m [|]]; [done| |done].
  intros (a & w1 & [_ ->]%M_lift_ok & H)%M_bind_ok.
  apply M_bind_ok in H as (e & w2 & [_ ->]%M_lift_ok & H).
  destruct (_ || _); [by injection H as <-|].
  by apply M_ret_ok in H as [_ ->].
Qed.

Lemma warmup_ok c w w' :
  warmup c w = Ok ((), w') →
  ∃ flags, Wrk.getWarmupFlags c = Ok flags ∧
           Wrk.runs w' = Wrk.runs w ++ [(Wrk.Wrk2, flags)] ∧
           Wrk.calibratedThroughput w' = Wrk.calibratedThroughput w.
Proof.
  unfold Wrk.warmup.
  intros (flags & w1 & [Hf ->]%M_lift_ok & H)%M_bind_ok.
  apply M_bind_ok in H as (out & w2 & (_ & Hr & Hc)%runWrk_ok & H).
  unfold Wrk.verifyWarmup in H.
  apply M_bind_ok in H as (r & w3 & [_ ->]%M_lift_ok & H).
  apply M_bind_ok in H as (x & w4 & [_ ->]%M_lift_ok & H).
  apply verifyThroughput_ok in H as [Hr' Hc'].
  exists flags. split; [done|]. split; congruence.
Qed.

(** The warmup loop runs wrk2 once for each script, in order. *)
Lemma warmups_ok configs w w' :
  Wrk.each warmup configs w = Ok ((), w') →
  ∃ rs, Wrk.runs w' = Wrk.runs w ++ rs ∧ length rs = length configs ∧
        Wrk.calibratedThroughput w' = Wrk.calibratedThroughput w.
Proof.
  revert w. induction configs as [|c configs IH]; intros w; cbn [Wrk.each].
  - intros [_ ->]%M_ret_ok. exists []. by rewrite app_nil_r.
  - intros ([] & w1 & (flags & _ & Hr & Hc)%warmup_ok & H)%M_bind_ok.
    apply IH in H as (rs & Hr' & Hl & Hc').
    exists ((Wrk.Wrk2, flags) :: rs). rewrite Hr', Hr, <- app_assoc.
    split; [done|]. split; [cbn; lia|congruence].
Qed.

(** The rate [testLatency] chooses for a script. *)
Lemma expectedRate_spec (c : gmap string json) cal i rate :
  Wrk.expectedRate c cal i = Ok rate →
  (∀ v, c !! "requests-per-second" = Some v → Json.truthy v = true →
        rate = v) ∧
  (Wrk.truthy_opt (c !! "requests-per-second") = false →
   ∃ xs x n, cal = Some xs ∧ xs !! i = Some x ∧
             Py.int (x * 0.75) = Ok n ∧ rate = JInt n).
Proof.
  unfold Wrk.expectedRate, Wrk.truthy_opt, Wrk.calibrated_at.
  assert (∀ r,
    ((match cal with
      | Some l => match l !! i with
                  | Some x => Ok x
                  | None => Raise IndexError
                  end
      | None => Raise AttributeError
      end ≫= λ x, Py.int (x * 0.75) ≫= λ r, Ok (JInt r)) = Ok r) →
    ∃ xs x n, cal = Some xs ∧ xs !! i = Some x ∧
              Py.int (x * 0.75) = Ok n ∧ r = JInt n) as Hcomp.
  { intros r. destruct cal as [xs|]; [|done].
    destruct (xs !! i) as [x|] eqn:Ex; [|done]. rewrite bind_ok.
    destruct (Py.int (x * 0.75)) as [n| |] eqn:En; [|done..].
    rewrite bind_ok. intros [= <-]. by exists xs, x, n. }
  destruct (c !! "requests-per-second") as [v|] eqn:Ev.
  - destruct (Json.truthy v) eqn:Ht.
    + intros [= <-]. split; [by intros ? [= <-]|done].
    + intros H. split; [intros ? [= <-]; congruence|]. intros _.
      by apply Hcomp.
  - intros H. split; [done|]. intros _. by apply Hcomp.
Qed.

Lemma extractWrk2Results_ok out w r w' :
  Wrk.extractWrk2Results findall_throughput findall_latency float_of_string
    out w = Ok (r, w') →
  Wrk.runs w' = Wrk.runs w ∧
  Wrk.calibratedThroughput w' = Wrk.calibratedThroughput w.
Proof.
  unfold Wrk.extractWrk2Results.
  destruct (Wrk.extractThroughput _ _ _) as [t| |]; [|done..].
  rewrite bind_ok. destruct (findall_latency out) as [|m ms]; [done|].
  destruct (for_each _ _ _) as [res| |]; [|done..]. rewrite bind_ok.
  by intros [= <- <-].
Qed.

(** One latency measurement: wrk2 runs with the chosen rate in front
    of the throughput flags of the script. *)
Lemma measure_latency_ok i c results w results' w' :
  measure_latency (i, c) results w = Ok (results', w') →
  ∃ rate flags,
    Wrk.expectedRate c (Wrk.calibratedThroughput w) i = Ok rate ∧
    Wrk.getThroughputFlags c = Ok flags ∧
    Wrk.runs w' = Wrk.runs w
                  ++ [(Wrk.Wrk2, [Wrk.Lit "--rate"; Wrk.Str rate] ++ flags)] ∧
    Wrk.calibratedThroughput w' = Wrk.calibratedThroughput w.
Proof.
  unfold Wrk.measure_latency. cbn [fst snd].
  intros (rate & w1 & [Hrate ->]%M_lift_ok & H)%M_bind_ok.
  apply M_bind_ok in H as (wrkFlags & w2 & [Hf ->]%M_lift_ok & H).
  apply M_bind_ok in H as (out & w3 & (_ & Hr & Hc)%runWrk_ok & H).
  apply M_bind_ok in H as ([] & w4 & [Hr4 Hc4]%verifyThroughput_ok & H).
  apply M_bind_ok in H as (r & w5 & [Hr5 Hc5]%extractWrk2Results_ok & H).
  apply M_ret_ok in H as [_ ->].
  unfold Wrk.getLatencyFlags in Hf.
  destruct (Wrk.getThroughputFlags c) as [flags| |]; [|done..].
  rewrite bind_ok in Hf. injection Hf as <-.
  exists rate, flags. split; [done|]. split; [done|].
  split; [by rewrite Hr5, Hr4, Hr|by rewrite Hc5, Hc4, Hc].
Qed.

(** The latency loop: the run of the script at position [j] of the
    loop is the j-th run of the loop. *)
Lemma measure_latencies_ok items results w results' w' :
  measure_latencies items results w = Ok (results', w') →
  Wrk.calibratedThroughput w' = Wrk.calibratedThroughput w ∧
  ∃ rs, Wrk.runs w' = Wrk.runs w ++ rs ∧
    ∀ j i c, items !! j = Some (i, c) →
      ∃ rate flags,
        Wrk.expectedRate c (Wrk.calibratedThroughput w) i = Ok rate ∧
        Wrk.getThroughputFlags c = Ok flags ∧
        rs !! j
        = Some (Wrk.Wrk2, [Wrk.Lit "--rate"; Wrk.Str rate] ++ flags).
Proof.
  revert results w. induction items as [|[i0 c0] items IH]; intros results w;
    cbn [Wrk.measure_latencies].
  - intros [_ ->]%M_ret_ok. split; [done|]. exists [].
    rewrite app_nil_r. split; [done|]. by intros j i c.
  - intros (res1 & w1 & (rate & flags & Hrate & Hf & Hr & Hc)%measure_latency_ok
              & H)%M_bind_ok.
    apply IH in H as (Hc' & rs & Hr' & Hall).
    split; [congruence|].
    exists ((Wrk.Wrk2, [Wrk.Lit "--rate"; Wrk.Str rate] ++ flags) :: rs).
    split; [by rewrite Hr', Hr, <- app_assoc|].
    intros [|j] i c Hj.
    + injection Hj as -> ->. by exists rate, flags.
    + cbn in Hj. rewrite <- Hc. by apply Hall.
Qed.


Lemma measure_throughput_ok c w w' :
  measure_throughput c w = Ok ((), w') →
  ∃ flags out x xs,
    Wrk.getThroughputFlags c = Ok flags ∧
    tool_output (length (Wrk.runs w)) = Ok out ∧
    extractThroughput out = Ok x ∧
    Wrk.runs w' = Wrk.runs w ++ [(Wrk.Wrk1, flags)] ∧
    Wrk.calibratedThroughput w = Some xs ∧
    Wrk.calibratedThroughput w' = Some (xs ++ [x]).
Proof.
  unfold Wrk.measure_throughput.
  intros (flags & w1 & [Hf ->]%M_lift_ok & H)%M_bind_ok.
  apply M_bind_ok in H as (out & w2 & (Ho & Hr & Hc)%runWrk_ok & H).
  apply M_bind_ok in H as (x & w3 & [Hx ->]%M_lift_ok & H).
  unfold Wrk.append_calibratedThroughput in H.
  destruct (Wrk.calibratedThroughput w2) as [xs|] eqn:Exs; [|done].
  injection H as <-. cbn [Wrk.runs Wrk.calibratedThroughput].
  exists flags, out, x, xs. rewrite <- Hc. done.
Qed.

(** The throughput loop of the calibration: one wrk run for each
    script, in order, whose throughput is appended to the list. *)
Lemma throughputs_ok configs w w' xs :
  Wrk.each measure_throughput configs w = Ok ((), w') →
  Wrk.calibratedThroughput w = Some xs →
  ∃ ys rs,
    Wrk.calibratedThroughput w' = Some (xs ++ ys) ∧
    Wrk.runs w' = Wrk.runs w ++ rs ∧
    length ys = length configs ∧
    ∀ j c, configs !! j = Some c →
      ∃ flags out x,
        Wrk.getThroughputFlags c = Ok flags ∧
        rs !! j = Some (Wrk.Wrk1, flags) ∧
        tool_output (length (Wrk.runs w) + j)%nat = Ok out ∧
        extractThroughput out = Ok x ∧ ys !! j = Some x.
Proof.
  revert w xs. induction configs as [|c0 configs IH]; intros w xs;
    cbn [Wrk.each].
  - intros [_ ->]%M_ret_ok Hxs. exists [], []. rewrite !app_nil_r.
    split; [done|]. split; [done|]. split; [done|]. by intros j c.
  - intros ([] & w1 & (flags & out & x & xs' & Hf & Ho & Hx & Hr & Hc & Hc')
              %measure_throughput_ok & H)%M_bind_ok Hxs.
    rewrite Hxs in Hc. injection Hc as <-.
    destruct (IH w1 (xs ++ [x]) H Hc') as (ys & rs & Hys & Hrs & Hl & Hall).
    exists (x :: ys), ((Wrk.Wrk1, flags) :: rs).
    split; [by rewrite Hys, <- app_assoc|].
    split; [by rewrite Hrs, Hr, <- app_assoc|].
    split; [cbn; lia|].
    intros [|j] c Hj.
    + injection Hj as ->. exists flags, out, x.
      by rewrite Nat.add_0_r.
    + cbn in Hj. destruct (Hall j c Hj) as (fl & o & y & ? & ? & Ho' & ? & ?).
      exists fl, o, y. split; [done|]. split; [done|]. split; [|done].
      rewrite Hr, length_app in Ho'. cbn [length] in Ho'.
      by replace (length (Wrk.runs w) + S j)%nat
        with (length (Wrk.runs w) + 1 + j)%nat by lia.
Qed.

Lemma writeWrk2Results_ok pre pre' results w out w' :
  Wrk.writeWrk2Results pre pre' results w = Ok (out, w') →
  Wrk.runs w' = Wrk.runs w.
Proof.
  unfold Wrk.writeWrk2Results.
  destruct (Wrk.computeAverage _ _) as [[a σ]| |]; [|done..].
  rewrite bind_ok. by intros [= <- <-].
Qed.


End LatencyFacts.



(** ** Unit conversion there and back *)

#[local] Open Scope Q_scope.

Lemma approx_trans (u u' a b c : Q) :
  0 <= u → B64.approx u a b → B64.approx u' b c →
  B64.approx (u + u' + u * u') a c.
Proof.
  unfold B64.approx. intros Hu Hab Hbc.
  assert (Qabs (a - c) <= Qabs (a - b) + Qabs (b - c)) as H1.
  { assert (a - c == (a - b) + (b - c)) as -> by ring.
    apply Qabs_triangle. }
  assert (Qabs b <= Qabs c + Qabs (b - c)) as H2.
  { assert (b == c + (b - c)) as E by ring. rewrite E at 1.
    apply Qabs_triangle. }
  pose proof (Qabs_nonneg c) as Hc.
  assert (Qabs b * u <= (Qabs c + u' * Qabs c) * u) as H3.
  { apply Qmult_le_compat_r; lra. }
  lra.
Qed.

Lemma approx_scale (u a b c : Q) :
  B64.approx u a b → B64.approx u (a * c) (b * c).
Proof.
  unfold B64.approx. intros H.
  assert (a * c - b * c == (a - b) * c) as -> by ring.
  rewrite !Qabs_Qmult. rewrite Qmult_assoc.
  apply Qmult_le_compat_r; [done|apply Qabs_nonneg].
Qed.

Lemma approx_eq (u a b b' : Q) : b == b' → B64.approx u a b → B64.approx u a b'.
Proof. unfold B64.approx. by intros ->. Qed.

Lemma approx_weaken (u u' a b : Q) :
  u <= u' → B64.approx u a b → B64.approx u' a b.
Proof.
  unfold B64.approx. intros Hu H. eapply Qle_trans; [exact H|].
  apply Qmult_le_compat_r; [done|apply Qabs_nonneg].
Qed.

Lemma value_normal (x : float) s m e :
  B64.normal (Prim2SF x) s m e →
  B64.value x = inject_Z (cond_Zopp s (Z.pos m)) * 2 ^ e.
Proof. intros (E & _). unfold B64.value. by rewrite E. Qed.

Lemma finite_normal (x : float) s m e :
  B64.normal (Prim2SF x) s m e → B64.finite x = true.
Proof. intros (E & _). unfold B64.finite. by rewrite E. Qed.

(** Two rationals with integer numerators over a common positive scale
    are as close as their numerators. *)
Lemma approx_of_Z (a b : Q) (A B : Z) (P : Q) :
  0 <= P → a == inject_Z A * P → b == inject_Z B * P →
  (Z.abs (A - B) * 2 ^ 53 ≤ Z.abs B)%Z →
  B64.approx B64.u64 a b.
Proof.
  intros HP Ha Hb HZ. unfold B64.approx. rewrite Ha, Hb.
  assert (inject_Z A * P - inject_Z B * P == inject_Z (A - B) * P) as ->.
  { unfold Zminus. rewrite inject_Z_plus, inject_Z_opp. ring. }
  rewrite !Qabs_Qmult, (Qabs_pos P) by done. rewrite Qmult_assoc.
  apply Qmult_le_compat_r; [|done].
  change (Qabs (inject_Z (A - B))) with (inject_Z (Z.abs (A - B))).
  change (Qabs (inject_Z B)) with (inject_Z (Z.abs B)).
  unfold B64.u64, Qle, Qmult, inject_Z. cbn [Qnum Qden].
  change (2 ^ 53)%Z with 9007199254740992%Z in HZ.
  change (Z.pos (2 ^ 53 * 1)) with 9007199254740992%Z. lia.
Qed.

Lemma pow2_split (e d : Z) :
  (0 ≤ d)%Z → (2 : Q) ^ (d + e) == inject_Z (2 ^ d) * 2 ^ e.
Proof.
  intros Hd. rewrite Qpower_plus by done.
  by rewrite (Zpower_Qpower 2 d) by done.
Qed.

Lemma cond_Zopp_mul (sx sy : bool) (a b : Z) :
  (cond_Zopp sx a * cond_Zopp sy b = cond_Zopp (xorb sx sy) (a * b))%Z.
Proof. destruct sx, sy; cbn; lia. Qed.

Lemma cond_Zopp_sub (s : bool) (a b : Z) :
  (cond_Zopp s a - cond_Zopp s b = cond_Zopp s (a - b))%Z.
Proof. destruct s; cbn; lia. Qed.

Lemma cond_Zopp_abs (s : bool) (a : Z) : Z.abs (cond_Zopp s a) = Z.abs a.
Proof. destruct s; cbn; lia. Qed.

(** The binary64 product of two normal numbers is within one unit
    roundoff of their product. *)
Lemma mul_approx (x y : float) sx mx ex sy my ey :
  B64.normal (Prim2SF x) sx mx ex → B64.normal (Prim2SF y) sy my ey →
  (-1074 ≤ ex + ey + 52)%Z → (ex + ey + 54 ≤ 971)%Z →
  ∃ m e,
    B64.normal (Prim2SF (x * y)) (xorb sx sy) m e ∧
    (ex + ey + 52 ≤ e ≤ ex + ey + 54)%Z ∧
    B64.approx B64.u64 (B64.value (x * y)) (B64.value x * B64.value y).
Proof.
  intros Hx Hy Hlo Hhi.
  destruct (mul_normal x y _ _ _ _ _ _ Hx Hy Hlo Hhi)
    as (m & e & k & Hn & Hk & HM & He & Habs).
  exists m, e. split; [done|]. split; [lia|].
  rewrite (value_normal _ _ _ _ Hn), (value_normal _ _ _ _ Hx),
    (value_normal _ _ _ _ Hy).
  set (d := (e - (ex + ey))%Z) in *.
  apply (approx_of_Z _ _ (cond_Zopp (xorb sx sy) (Z.pos m * 2 ^ d))
           (cond_Zopp (xorb sx sy) (Z.pos mx * Z.pos my)) (2 ^ (ex + ey))).
  - apply Qlt_le_weak, Qpower_0_lt. done.
  - replace e with (d + (ex + ey))%Z at 1 by (unfold d; lia).
    rewrite pow2_split by lia.
    assert (cond_Zopp (xorb sx sy) (Z.pos m * 2 ^ d)
            = (cond_Zopp (xorb sx sy) (Z.pos m) * 2 ^ d)%Z) as ->
      by (destruct (xorb sx sy); cbn; lia).
    rewrite inject_Z_mult. ring.
  - rewrite <- cond_Zopp_mul, inject_Z_mult, Qpower_plus by done. ring.
  - rewrite cond_Zopp_sub, !cond_Zopp_abs.
    assert (2 ^ k * 2 ^ 52 ≤ Z.pos mx * Z.pos my)%Z as HM'
      by (rewrite <- Z.pow_add_r by lia; done).
    assert (0 < 2 ^ k)%Z by (apply Z.pow_pos_nonneg; lia).
    change (2 ^ 53)%Z with 9007199254740992%Z.
    change (2 ^ 52)%Z with 4503599627370496%Z in HM'.
    rewrite (Z.abs_eq (Z.pos mx * Z.pos my)) by lia. lia.
Qed.

(** The binary64 quotient of two normal numbers is within one unit
    roundoff of their quotient. *)
Lemma div_approx (x y : float) sx mx ex sy my ey :
  B64.normal (Prim2SF x) sx mx ex → B64.normal (Prim2SF y) sy my ey →
  (-1074 ≤ ex - ey - 53)%Z → (ex - ey - 51 ≤ 971)%Z →
  ∃ m e,
    B64.normal (Prim2SF (x / y)) (xorb sx sy) m e ∧
    (ex - ey - 53 ≤ e ≤ ex - ey - 51)%Z ∧
    B64.approx B64.u64 (B64.value (x / y)) (B64.value x / B64.value y).
Proof.
  intros Hx Hy Hlo Hhi.
  destruct (div_normal x y _ _ _ _ _ _ Hx Hy Hlo Hhi)
    as (m & e & k & Hn & Hk & HM & He & Habs).
  exists m, e. split; [done|]. split; [lia|].
  rewrite (value_normal _ _ _ _ Hn), (value_normal _ _ _ _ Hx),
    (value_normal _ _ _ _ Hy).
  set (d := (e - (ex - ey - 53))%Z) in *.
  assert (0 < (2 : Q) ^ ey) as Hpy by (by apply Qpower_0_lt).
  assert (0 < (2 : Q) ^ (ex - ey - 53)) as Hp by (by apply Qpower_0_lt).
  assert (0 < inject_Z (Z.pos my)) as Hmy by done.
  apply (approx_of_Z _ _
           (cond_Zopp (xorb sx sy) (Z.pos m * 2 ^ d * Z.pos my))
           (cond_Zopp (xorb sx sy) (Z.pos mx * 2 ^ 53))
           (2 ^ (ex - ey - 53) / inject_Z (Z.pos my))).
  - apply Qlt_le_weak. apply Qlt_shift_div_l; [done|]. by rewrite Qmult_0_l.
  - replace e with (d + (ex - ey - 53))%Z at 1 by (unfold d; lia).
    rewrite pow2_split by lia.
    assert (cond_Zopp (xorb sx sy) (Z.pos m * 2 ^ d * Z.pos my)
            = (cond_Zopp (xorb sx sy) (Z.pos m) * 2 ^ d * Z.pos my)%Z) as ->
      by (destruct (xorb sx sy); cbn; lia).
    rewrite !inject_Z_mult. field. lra.
  - assert (cond_Zopp (xorb sx sy) (Z.pos mx * 2 ^ 53)
            = (cond_Zopp sx (Z.pos mx) * cond_Zopp sy 1 * 2 ^ 53)%Z) as ->
      by (destruct sx, sy; cbn; lia).
    assert (inject_Z (cond_Zopp sy (Z.pos my))
            == inject_Z (cond_Zopp sy 1) * inject_Z (Z.pos my)) as ->.
    { rewrite <- inject_Z_mult. by destruct sy. }
    assert ((2 : Q) ^ ex == 2 ^ (ex - ey - 53) * inject_Z (2 ^ 53) * 2 ^ ey)
      as ->.
    { replace ex with (53 + ((ex - ey - 53) + ey))%Z at 1 by lia.
      rewrite pow2_split by lia. rewrite Qpower_plus by done. ring. }
    rewrite !inject_Z_mult.
    assert (inject_Z (cond_Zopp sy 1) * inject_Z (cond_Zopp sy 1) == 1) as Hs
      by (by destruct sy).
    assert (¬ inject_Z (cond_Zopp sy 1) == 0) as Hs0 by (by destruct sy).
    field_simplify_eq; [|repeat split; lra].
    assert (inject_Z (cond_Zopp sy 1) ^ 2 == 1) as -> by (by destruct sy).
    ring.
  - rewrite cond_Zopp_sub, !cond_Zopp_abs.
    assert (2 ^ k * 2 ^ 52 * Z.pos my ≤ Z.pos mx * 2 ^ 53)%Z as HM'
      by (rewrite <- Z.pow_add_r by lia; done).
    assert (0 < 2 ^ k)%Z by (apply Z.pow_pos_nonneg; lia).
    change (2 ^ 53)%Z with 9007199254740992%Z in *.
    change (2 ^ 52)%Z with 4503599627370496%Z in HM'.
    rewrite (Z.abs_eq (Z.pos mx * 9007199254740992)) by lia. lia.
Qed.

Lemma factor_normal (f : float) :
  B64.factor f = true →
  ∃ m e, B64.normal (Prim2SF f) false m e ∧ (-100 ≤ e ≤ 0)%Z.
Proof.
  unfold B64.factor. destruct (Prim2SF f) as [| | |[] m e] eqn:E; try done.
  intros H. exists m, e.
  apply andb_prop in H as [H He2]. apply andb_prop in H as [H He1].
  apply andb_prop in H as [Hm1 Hm2].
  apply Z.leb_le in Hm1, He1, He2. apply Z.ltb_lt in Hm2.
  split; [|lia]. split; [done|]. split; lia.
Qed.

(** Every factor of the three tables is a positive normal number of
    moderate magnitude. *)
Lemma table_factor (table : gmap string Py.num) (unit : string) (a : Py.num) :
  table ∈ [timeUnitTable; tputUnitTable; memUnitTable] →
  table !! unit = Some a →
  ∃ f, Py.to_float a = Ok f ∧ B64.factor f = true.
Proof.
  intros Ht Ha.
  repeat (apply elem_of_cons in Ht as [->|Ht]); [| | |by apply elem_of_nil in Ht].
  - apply elem_of_list_to_map_2 in Ha.
    repeat (apply elem_of_cons in Ha as [[= -> ->]|Ha]);
      [..|by apply elem_of_nil in Ha];
      (eexists; split; [vm_compute; reflexivity|vm_compute; reflexivity]).
  - apply elem_of_list_to_map_2 in Ha.
    repeat (apply elem_of_cons in Ha as [[= -> ->]|Ha]);
      [..|by apply elem_of_nil in Ha];
      (eexists; split; [vm_compute; reflexivity|vm_compute; reflexivity]).
  - apply elem_of_list_to_map_2 in Ha.
    repeat (apply elem_of_cons in Ha as [[= -> ->]|Ha]);
      [..|by apply elem_of_nil in Ha];
      (eexists; split; [vm_compute; reflexivity|vm_compute; reflexivity]).
Qed.

Lemma value_positive (f : float) m e :
  B64.normal (Prim2SF f) false m e → 0 < B64.value f.
Proof.
  intros H. rewrite (value_normal _ _ _ _ H). cbn [cond_Zopp].
  apply Qmult_lt_0_compat; [done|by apply Qpower_0_lt].
Qed.

(** One conversion: the product by the first factor divided by the
    second, each rounded once. *)
Lemma convert_approx (v f g : float) sv mv ev mf ef mg eg :
  B64.normal (Prim2SF v) sv mv ev →
  B64.normal (Prim2SF f) false mf ef → B64.normal (Prim2SF g) false mg eg →
  (-100 ≤ ef ≤ 0)%Z → (-100 ≤ eg ≤ 0)%Z → (-950 ≤ ev ≤ 850)%Z →
  ∃ m e,
    B64.normal (Prim2SF (v * f / g)) sv m e ∧
    (ev - 101 ≤ e ≤ ev + 103)%Z ∧
    B64.approx (B64.u64 + B64.u64 + B64.u64 * B64.u64)
      (B64.value (v * f / g)) (B64.value v * B64.value f / B64.value g).
Proof.
  intros Hv Hf Hg Hef Heg Hev.
  destruct (mul_approx v f _ _ _ _ _ _ Hv Hf) as (m1 & e1 & H1 & He1 & A1);
    [lia..|].
  destruct (div_approx (v * f) g _ _ _ _ _ _ H1 Hg) as (m2 & e2 & H2 & He2 & A2);
    [lia..|].
  replace (xorb (xorb sv false) false) with sv in H2 by (by destruct sv).
  exists m2, e2. split; [done|]. split; [lia|].
  eapply approx_trans; [done|exact A2|].
  unfold Qdiv. by apply approx_scale.
Qed.

Lemma tolerance_bound :
  let u2 := B64.u64 + B64.u64 + B64.u64 * B64.u64 in
  u2 + u2 + u2 * u2 <= B64.tolerance.
Proof. by apply Qle_bool_iff. Qed.




#[local] Close Scope Q_scope.
